(** * Kaidan: the credential store (AccountManager) and the login-by-URI helper

    A shallow embedding of [src/AccountManager.cpp] together with the three-way
    result of [Kaidan::logInByUri] declared in [src/Kaidan.h].

    The account manager is a mutable object that talks to three collaborators:
    a [QSettings] key-value store, the process-wide random generator used by
    [QXmppUtils::generateStanzaHash], and the Qt signal machinery.  Its member
    functions become computations of a small state monad over a [World]
    (object, settings store, generator); every computation also produces the
    ordered trace of what it did: mutex operations, member reads and writes,
    settings accesses and emitted signals.

    A member function runs from its first to its last step on one thread.
    The slots connected to the signals belong to other classes: an emission
    is an entry of the trace and leaves the world alone. *)

From Stdlib Require Import ZArith Lia Ascii DecimalString.
From stdpp Require Import base strings gmap list.

Local Open Scope string_scope.
Local Open Scope Z_scope.
Local Open Scope list_scope.

(** ** Qt value types *)

(** A [QString] is kept as a sequence of characters.  A null and an empty
    [QString] are both [isEmpty()], so one empty value stands for the two. *)
Abbreviation QString := string.
Abbreviation QByteArray := (list Byte.byte).

Definition isEmpty (s : QString) : bool :=
  match s with
  | EmptyString => true
  | String _ _ => false
  end.

(** [QVariant] as the settings store hands it out: an invalid variant (what
    [QSettings::value] returns for a missing key without default), or a
    string, an [int] or a [bool]. *)
Inductive QVariant :=
  | QVInvalid
  | QVString (s : QString)
  | QVInt (i : Z)
  | QVBool (b : bool).

(** ** Collaborators that are not part of AccountManager.cpp *)

(** Library functions of Qt and QXmpp the account manager calls.  They are
    kept abstract; [Rng] is the state of the process-wide random generator
    which [QXmppUtils::generateStanzaHash] draws from. *)
Class QtLib := {
  Rng : Type;
  (** [QXmppUtils::generateStanzaHash(length)] *)
  generateStanzaHash : nat -> Rng -> QString * Rng;
  (** [QString::toUtf8], [QString::fromUtf8] (also the implicit conversion
      of a [QByteArray] to a [QString]) *)
  toUtf8 : QString -> QByteArray;
  fromUtf8 : QByteArray -> QString;
  (** [QByteArray::toBase64], [QByteArray::fromBase64] *)
  toBase64 : QByteArray -> QByteArray;
  fromBase64 : QByteArray -> QByteArray;
  (** conversions of a string variant: [QString::toInt] (0 when the string
      is no number), [QString::number], and the truth value of a string *)
  QString_toInt : QString -> Z;
  QString_number : Z -> QString;
  QString_toBool : QString -> bool
}.

(** The constants of Globals.h and the default argument declared in
    AccountManager.h; neither header is among the sources. *)
Class Globals := {
  KAIDAN_SETTINGS_AUTH_ONLINE : string;
  KAIDAN_SETTINGS_AUTH_JID : string;
  KAIDAN_SETTINGS_AUTH_JID_RESOURCE_PREFIX : string;
  KAIDAN_SETTINGS_AUTH_PASSWD : string;
  KAIDAN_SETTINGS_AUTH_HOST : string;
  KAIDAN_SETTINGS_AUTH_PORT : string;
  KAIDAN_SETTINGS_AUTH_USE_CUSTOM : string;
  KAIDAN_SETTINGS_AUTH_PASSWD_VISIBILITY : string;
  KAIDAN_SETTINGS_NOTIFICATIONS_MUTED : string;
  KAIDAN_SETTINGS_FAVORITE_EMOJIS : string;
  KAIDAN_JID_RESOURCE_DEFAULT_PREFIX : QString;
  (** default of [generateJidResourceWithRandomSuffix]'s parameter *)
  numberOfRandomSuffixCharacters : nat
}.

(** [QVariant::toString], [QVariant::toInt], [QVariant::toBool]. *)
Definition QVariant_toString `{QtLib} (v : QVariant) : QString :=
  match v with
  | QVInvalid => ""
  | QVString s => s
  | QVInt i => QString_number i
  | QVBool b => if b then "true" else "false"
  end.

Definition QVariant_toInt `{QtLib} (v : QVariant) : Z :=
  match v with
  | QVInvalid => 0
  | QVString s => QString_toInt s
  | QVInt i => i
  | QVBool b => if b then 1 else 0
  end.

Definition QVariant_toBool `{QtLib} (v : QVariant) : bool :=
  match v with
  | QVInvalid => false
  | QVString s => QString_toBool s
  | QVInt i => negb (Z.eqb i 0)
  | QVBool b => b
  end.

(** ** Keys of the settings store *)

(** [QSettingsPrivate::normalizedKey]: slashes at the start and at the end of
    a key are dropped and a run of slashes counts as one.  [started] says
    that a character of the key was kept already, [pending] that a slash
    waits for the next one. *)
Fixpoint normalizedKeyFrom (started pending : bool) (key : string) : string :=
  match key with
  | EmptyString => EmptyString
  | String c rest =>
      if Ascii.eqb c "/" then normalizedKeyFrom started started rest
      else if pending then String "/" (String c (normalizedKeyFrom true false rest))
      else String c (normalizedKeyFrom true false rest)
  end.

Definition normalizedKey (key : string) : string :=
  normalizedKeyFrom false false key.

(** [QSettings::remove(key)] removes the setting [key] and every sub-setting
    of [key]: the settings whose key continues the normalized [key] with a
    slash.  A key that is empty once normalized stands for the whole store
    (no group is open). *)
Definition removes (key k : string) : bool :=
  isEmpty (normalizedKey key)
  || bool_decide (k = key)
  || bool_decide (k = normalizedKey key)
  || String.prefix (normalizedKey key +:+ "/") k.

Definition QSettings_remove (key : string) (m : gmap string QVariant)
    : gmap string QVariant :=
  filter (fun entry => removes key entry.1 = false) m.

Arguments QSettings_remove : simpl never.

(** ** The object *)

Definition PORT_DEFAULT : Z := 5222.
Definition PORT_UNSET : Z := -1.

(** The data members of [AccountManager].  [m_port] is an [int], as in the
    signatures of [port()] and [setPort(const int)] and the test
    [m_port < 0]. *)
Record AccountManager := mkAccountManager {
  m_jid : QString;
  m_jidResourcePrefix : QString;
  m_jidResource : QString;
  m_password : QString;
  m_host : QString;
  m_port : Z;
  m_customConnectionSettingsEnabled : bool;
  m_hasNewCredentials : bool
}.

Inductive Member :=
  | M_jid
  | M_jidResourcePrefix
  | M_jidResource
  | M_password
  | M_host
  | M_port
  | M_customConnectionSettingsEnabled
  | M_hasNewCredentials.

Definition member_type (m : Member) : Type :=
  match m with
  | M_port => Z
  | M_customConnectionSettingsEnabled | M_hasNewCredentials => bool
  | _ => QString
  end.

Definition get_member (m : Member) (a : AccountManager) : member_type m :=
  match m with
  | M_jid => m_jid a
  | M_jidResourcePrefix => m_jidResourcePrefix a
  | M_jidResource => m_jidResource a
  | M_password => m_password a
  | M_host => m_host a
  | M_port => m_port a
  | M_customConnectionSettingsEnabled => m_customConnectionSettingsEnabled a
  | M_hasNewCredentials => m_hasNewCredentials a
  end.

Definition set_member (m : Member) : member_type m -> AccountManager -> AccountManager :=
  match m with
  | M_jid => fun v a =>
      mkAccountManager v (m_jidResourcePrefix a) (m_jidResource a) (m_password a)
        (m_host a) (m_port a) (m_customConnectionSettingsEnabled a) (m_hasNewCredentials a)
  | M_jidResourcePrefix => fun v a =>
      mkAccountManager (m_jid a) v (m_jidResource a) (m_password a)
        (m_host a) (m_port a) (m_customConnectionSettingsEnabled a) (m_hasNewCredentials a)
  | M_jidResource => fun v a =>
      mkAccountManager (m_jid a) (m_jidResourcePrefix a) v (m_password a)
        (m_host a) (m_port a) (m_customConnectionSettingsEnabled a) (m_hasNewCredentials a)
  | M_password => fun v a =>
      mkAccountManager (m_jid a) (m_jidResourcePrefix a) (m_jidResource a) v
        (m_host a) (m_port a) (m_customConnectionSettingsEnabled a) (m_hasNewCredentials a)
  | M_host => fun v a =>
      mkAccountManager (m_jid a) (m_jidResourcePrefix a) (m_jidResource a) (m_password a)
        v (m_port a) (m_customConnectionSettingsEnabled a) (m_hasNewCredentials a)
  | M_port => fun v a =>
      mkAccountManager (m_jid a) (m_jidResourcePrefix a) (m_jidResource a) (m_password a)
        (m_host a) v (m_customConnectionSettingsEnabled a) (m_hasNewCredentials a)
  | M_customConnectionSettingsEnabled => fun v a =>
      mkAccountManager (m_jid a) (m_jidResourcePrefix a) (m_jidResource a) (m_password a)
        (m_host a) (m_port a) v (m_hasNewCredentials a)
  | M_hasNewCredentials => fun v a =>
      mkAccountManager (m_jid a) (m_jidResourcePrefix a) (m_jidResource a) (m_password a)
        (m_host a) (m_port a) (m_customConnectionSettingsEnabled a) v
  end.

(** The signals [AccountManager.cpp] emits. *)
Inductive Signal :=
  | jidChanged
  | passwordChanged
  | hostChanged
  | portChanged
  | customConnectionSettingsEnabledChanged
  | newCredentialsNeeded.

(** What a member function does, in program order. *)
Inductive Event :=
  | Lock                              (* m_mutex is acquired *)
  | Unlock                            (* m_mutex is released *)
  | Read (m : Member)
  | Write (m : Member)
  | SettingsValue (key : string)      (* m_settings->value(key ...) *)
  | SettingsSetValue (key : string)   (* m_settings->setValue(key, ...) *)
  | SettingsRemove (key : string)     (* m_settings->remove(key) *)
  | Emit (s : Signal).

Global Instance Member_eq_dec : EqDecision Member.
Proof. solve_decision. Defined.
Global Instance Signal_eq_dec : EqDecision Signal.
Proof. solve_decision. Defined.
Global Instance QVariant_eq_dec : EqDecision QVariant.
Proof. solve_decision. Defined.
Global Instance Event_eq_dec : EqDecision Event.
Proof. solve_decision. Defined.

(** ** The monad of member functions *)

Section Embedding.
Context `{QtLib} `{Globals}.

(** Everything a member function can observe or change. *)
Record World := mkWorld {
  self : AccountManager;
  m_settings : gmap string QVariant;
  rng : Rng
}.

Definition M (A : Type) : Type := World -> A * World * list Event.

Definition ret {A} (a : A) : M A := fun w => (a, w, []).

Definition bind {A B} (c : M A) (k : A -> M B) : M B :=
  fun w =>
    let '(a, w1, t1) := c w in
    let '(b, w2, t2) := k a w1 in
    (b, w2, t1 ++ t2).

End Embedding.

Declare Scope am_scope.
Delimit Scope am_scope with am.
Notation "x <- c ;; k" := (bind c (fun x => k))
  (at level 100, c at next level, right associativity) : am_scope.
Notation "c ;; k" := (bind c (fun _ => k))
  (at level 100, right associativity) : am_scope.

Local Open Scope am_scope.

(** ** Primitive steps *)

Section Primitives.
Context `{QtLib} `{Globals}.

(** [QMutexLocker locker(&m_mutex)] acquires the mutex; [locker.unlock()], or
    the locker's destructor when the function returns, releases it. *)
Definition lock : M unit := fun w => (tt, w, [Lock]).
Definition unlock : M unit := fun w => (tt, w, [Unlock]).

Definition emit (s : Signal) : M unit := fun w => (tt, w, [Emit s]).

Definition load (m : Member) : M (member_type m) :=
  fun w => (get_member m (self w), w, [Read m]).

Definition store (m : Member) (v : member_type m) : M unit :=
  fun w => (tt, mkWorld (set_member m v (self w)) (m_settings w) (rng w), [Write m]).

(** [m_settings->value(key, defaultValue)]; without a default the invalid
    variant is the default.  A setting is found under the key the program
    passes. *)
Definition settings_value (key : string) (defaultValue : QVariant) : M QVariant :=
  fun w => (default defaultValue (m_settings w !! key), w, [SettingsValue key]).

Definition settings_setValue (key : string) (v : QVariant) : M unit :=
  fun w => (tt, mkWorld (self w) (<[key := v]> (m_settings w)) (rng w), [SettingsSetValue key]).

(** [m_settings->remove(key)] *)
Definition settings_remove (key : string) : M unit :=
  fun w =>
    (tt, mkWorld (self w) (QSettings_remove key (m_settings w)) (rng w),
     [SettingsRemove key]).

(** A draw from the random generator. *)
Definition stanzaHash (length : nat) : M QString :=
  fun w =>
    let draw := generateStanzaHash length (rng w) in
    (draw.1, mkWorld (self w) (m_settings w) draw.2, []).

Definition when (b : bool) (c : M unit) : M unit :=
  if b then c else ret tt.

(** ** The member functions of AccountManager.cpp *)

Definition jid : M QString :=
  lock ;;
  v <- load M_jid ;;
  unlock ;;
  ret v.

Definition setJid (jid : QString) : M unit :=
  lock ;;
  store M_jid jid ;;
  store M_hasNewCredentials true ;;
  unlock ;;
  emit jidChanged.

Definition generateJidResourceWithRandomSuffix
    (numberOfRandomSuffixCharacters : nat) : M QString :=
  prefix <- load M_jidResourcePrefix ;;
  suffix <- stanzaHash numberOfRandomSuffixCharacters ;;
  ret (prefix +:+ "." +:+ suffix).

Definition setJidResourcePrefix (jidResourcePrefix : QString) : M unit :=
  store M_jidResourcePrefix jidResourcePrefix ;;
  r <- generateJidResourceWithRandomSuffix numberOfRandomSuffixCharacters ;;
  store M_jidResource r.

Definition jidResource : M QString :=
  prefix <- load M_jidResourcePrefix ;;
  if isEmpty prefix
  then generateJidResourceWithRandomSuffix numberOfRandomSuffixCharacters
  else load M_jidResource.

Definition password : M QString :=
  lock ;;
  v <- load M_password ;;
  unlock ;;
  ret v.

Definition setPassword (password : QString) : M unit :=
  lock ;;
  store M_password password ;;
  store M_hasNewCredentials true ;;
  unlock ;;
  emit passwordChanged.

Definition host : M QString :=
  lock ;;
  v <- load M_host ;;
  unlock ;;
  ret v.

Definition setHost (host : QString) : M unit :=
  lock ;;
  store M_host host ;;
  store M_hasNewCredentials true ;;
  unlock ;;
  emit hostChanged.

Definition resetHost : M unit := setHost "".

(** [return m_port < 0 ? PORT_DEFAULT : m_port;] under the locker. *)
Definition port : M Z :=
  lock ;;
  p <- load M_port ;;
  r <- (if p <? 0 then ret PORT_DEFAULT else load M_port) ;;
  unlock ;;
  ret r.

Definition setPort (port : Z) : M unit :=
  lock ;;
  store M_port port ;;
  store M_hasNewCredentials true ;;
  unlock ;;
  emit portChanged.

Definition resetPort : M unit := setPort PORT_UNSET.

Definition customConnectionSettingsEnabled : M bool :=
  lock ;;
  v <- settings_value KAIDAN_SETTINGS_AUTH_USE_CUSTOM QVInvalid ;;
  unlock ;;
  ret (QVariant_toBool v).

Definition setCustomConnectionSettingsEnabled (enabled : bool) : M unit :=
  lock ;;
  store M_customConnectionSettingsEnabled enabled ;;
  unlock ;;
  emit customConnectionSettingsEnabledChanged.

Definition hasNewCredentials : M bool := load M_hasNewCredentials.

Definition setHasNewCredentials (hasNewCredentials : bool) : M unit :=
  store M_hasNewCredentials hasNewCredentials.

(** [!(jid().isEmpty() || password().isEmpty())]: [password()] is only
    called when the address is not empty. *)
Definition hasEnoughCredentialsForLogin : M bool :=
  j <- jid ;;
  if isEmpty j then ret false
  else
    p <- password ;;
    ret (negb (isEmpty p)).

Definition loadCredentials : M bool :=
  enough <- hasEnoughCredentialsForLogin ;;
  if negb enough then
    v <- settings_value KAIDAN_SETTINGS_AUTH_JID QVInvalid ;;
    setJid (QVariant_toString v) ;;
    v <- settings_value KAIDAN_SETTINGS_AUTH_PASSWD QVInvalid ;;
    setPassword (fromUtf8 (fromBase64 (toUtf8 (QVariant_toString v)))) ;;
    v <- settings_value KAIDAN_SETTINGS_AUTH_JID_RESOURCE_PREFIX
           (QVString KAIDAN_JID_RESOURCE_DEFAULT_PREFIX) ;;
    setJidResourcePrefix (QVariant_toString v) ;;
    v <- settings_value KAIDAN_SETTINGS_AUTH_HOST QVInvalid ;;
    setHost (QVariant_toString v) ;;
    v <- settings_value KAIDAN_SETTINGS_AUTH_PORT (QVInt PORT_UNSET) ;;
    setPort (QVariant_toInt v) ;;
    store M_hasNewCredentials false ;;
    enough' <- hasEnoughCredentialsForLogin ;;
    if negb enough' then
      emit newCredentialsNeeded ;;
      ret false
    else ret true
  else ret true.

Definition storeJid : M unit :=
  j <- jid ;;
  settings_setValue KAIDAN_SETTINGS_AUTH_JID (QVString j).

Definition storePassword : M unit :=
  p <- password ;;
  settings_setValue KAIDAN_SETTINGS_AUTH_PASSWD
    (QVString (fromUtf8 (toBase64 (toUtf8 p)))).

Definition storeCustomConnectionSettings : M unit :=
  h <- load M_host ;;
  when (negb (isEmpty h))
    (h' <- load M_host ;;
     settings_setValue KAIDAN_SETTINGS_AUTH_HOST (QVString h')) ;;
  p <- load M_port ;;
  when (negb (p =? PORT_UNSET))
    (p' <- load M_port ;;
     settings_setValue KAIDAN_SETTINGS_AUTH_PORT (QVInt p')).

Definition storeCredentials : M unit :=
  storeJid ;;
  storePassword ;;
  storeCustomConnectionSettings.

Fixpoint deleteSettingsInSettingsFile (keys : list string) : M unit :=
  match keys with
  | [] => ret tt
  | key :: keys' =>
      settings_remove key ;;
      deleteSettingsInSettingsFile keys'
  end.

(** The keys [deleteCredentials] passes to [deleteSettingsInSettingsFile]. *)
Definition credentialKeys : list string :=
  [ KAIDAN_SETTINGS_AUTH_JID;
    KAIDAN_SETTINGS_AUTH_JID_RESOURCE_PREFIX;
    KAIDAN_SETTINGS_AUTH_PASSWD;
    KAIDAN_SETTINGS_AUTH_HOST;
    KAIDAN_SETTINGS_AUTH_PORT;
    KAIDAN_SETTINGS_AUTH_USE_CUSTOM;
    KAIDAN_SETTINGS_AUTH_PASSWD_VISIBILITY ].

Definition deleteCredentials : M unit :=
  deleteSettingsInSettingsFile credentialKeys ;;
  setJid "" ;;
  store M_jidResourcePrefix "" ;;
  store M_jidResource "" ;;
  setPassword "" ;;
  resetHost ;;
  resetPort ;;
  emit newCredentialsNeeded.

Definition deleteSettings : M unit :=
  deleteSettingsInSettingsFile
    [ KAIDAN_SETTINGS_AUTH_ONLINE;
      KAIDAN_SETTINGS_NOTIFICATIONS_MUTED;
      KAIDAN_SETTINGS_FAVORITE_EMOJIS ].

End Primitives.

(** ** Running member functions *)

Section Running.
Context `{QtLib} `{Globals}.

Definition result {A} (c : M A) (w : World) : A := (c w).1.1.
Definition after {A} (c : M A) (w : World) : World := (c w).1.2.
Definition trace {A} (c : M A) (w : World) : list Event := (c w).2.

(** The object right after the constructor ran: [m_port(PORT_UNSET)], the
    strings default-constructed.  The two [bool] members are not mentioned by
    the constructor; their initial values are left open. *)
Definition constructed (customEnabled hasNew : bool) : AccountManager :=
  mkAccountManager "" "" "" "" "" PORT_UNSET customEnabled hasNew.

(** A call of a member function by a client of the class. *)
Inductive Call :=
  | call_jid
  | call_setJid (jid : QString)
  | call_setJidResourcePrefix (jidResourcePrefix : QString)
  | call_jidResource
  | call_password
  | call_setPassword (password : QString)
  | call_host
  | call_setHost (host : QString)
  | call_resetHost
  | call_port
  | call_setPort (port : Z)
  | call_resetPort
  | call_customConnectionSettingsEnabled
  | call_setCustomConnectionSettingsEnabled (enabled : bool)
  | call_hasNewCredentials
  | call_setHasNewCredentials (hasNewCredentials : bool)
  | call_hasEnoughCredentialsForLogin
  | call_loadCredentials
  | call_storeJid
  | call_storePassword
  | call_storeCustomConnectionSettings
  | call_storeCredentials
  | call_deleteCredentials
  | call_deleteSettings.

Definition discard {A} (c : M A) : M unit := _ <- c ;; ret tt.

Definition perform (c : Call) : M unit :=
  match c with
  | call_jid => discard jid
  | call_setJid s => setJid s
  | call_setJidResourcePrefix s => setJidResourcePrefix s
  | call_jidResource => discard jidResource
  | call_password => discard password
  | call_setPassword s => setPassword s
  | call_host => discard host
  | call_setHost s => setHost s
  | call_resetHost => resetHost
  | call_port => discard port
  | call_setPort p => setPort p
  | call_resetPort => resetPort
  | call_customConnectionSettingsEnabled => discard customConnectionSettingsEnabled
  | call_setCustomConnectionSettingsEnabled b => setCustomConnectionSettingsEnabled b
  | call_hasNewCredentials => discard hasNewCredentials
  | call_setHasNewCredentials b => setHasNewCredentials b
  | call_hasEnoughCredentialsForLogin => discard hasEnoughCredentialsForLogin
  | call_loadCredentials => discard loadCredentials
  | call_storeJid => storeJid
  | call_storePassword => storePassword
  | call_storeCustomConnectionSettings => storeCustomConnectionSettings
  | call_storeCredentials => storeCredentials
  | call_deleteCredentials => deleteCredentials
  | call_deleteSettings => deleteSettings
  end.

Fixpoint performAll (cs : list Call) : M unit :=
  match cs with
  | [] => ret tt
  | c :: cs' => perform c ;; performAll cs'
  end.

(** The calls that write address, password, host or port, with the change
    signal of the field. *)
Definition fieldSignal (c : Call) : option Signal :=
  match c with
  | call_setJid _ => Some jidChanged
  | call_setPassword _ => Some passwordChanged
  | call_setHost _ | call_resetHost => Some hostChanged
  | call_setPort _ | call_resetPort => Some portChanged
  | _ => None
  end.

(** The calls by which [m_hasNewCredentials] can become false: the setter
    called with false, which is how a settled connection clears the flag, and
    [loadCredentials]. *)
Definition clearsFlag (c : Call) : bool :=
  match c with
  | call_setHasNewCredentials false | call_loadCredentials => true
  | _ => false
  end.

(** The calls that assign [m_jidResourcePrefix]. *)
Definition changesPrefix (c : Call) : bool :=
  match c with
  | call_setJidResourcePrefix _ | call_loadCredentials | call_deleteCredentials => true
  | _ => false
  end.

(** The getters and setters that construct a [QMutexLocker]. *)
Definition lockingAccessor (c : Call) : bool :=
  match c with
  | call_jid | call_setJid _
  | call_password | call_setPassword _
  | call_host | call_setHost _ | call_resetHost
  | call_port | call_setPort _ | call_resetPort
  | call_customConnectionSettingsEnabled
  | call_setCustomConnectionSettingsEnabled _ => true
  | _ => false
  end.

(** The accessors of the resource and of the flag, which do not. *)
Definition plainAccessor (c : Call) : bool :=
  match c with
  | call_setJidResourcePrefix _ | call_jidResource
  | call_hasNewCredentials | call_setHasNewCredentials _ => true
  | _ => false
  end.

(** ** Reading traces *)

(** The signals of a trace, in emission order. *)
Fixpoint signals (t : list Event) : list Signal :=
  match t with
  | [] => []
  | Emit s :: t' => s :: signals t'
  | _ :: t' => signals t'
  end.

(** The members a trace writes, in order. *)
Fixpoint written (t : list Event) : list Member :=
  match t with
  | [] => []
  | Write m :: t' => m :: written t'
  | _ :: t' => written t'
  end.

(** The mutex protocol of a trace that starts with the mutex [held] or not:
    the mutex is only acquired when free and only released when held, no
    signal is emitted while it is held, and it is free at the end. *)
Fixpoint emitsUnlocked (held : bool) (t : list Event) : bool :=
  match t with
  | [] => negb held
  | Lock :: t' => negb held && emitsUnlocked true t'
  | Unlock :: t' => held && emitsUnlocked false t'
  | Emit _ :: t' => negb held && emitsUnlocked held t'
  | _ :: t' => emitsUnlocked held t'
  end.

(** Every read and write of a data member, and every access to the settings
    store, happens while the mutex is held. *)
Fixpoint accessesLocked (held : bool) (t : list Event) : bool :=
  match t with
  | [] => true
  | Lock :: t' => accessesLocked true t'
  | Unlock :: t' => accessesLocked false t'
  | Emit _ :: t' => accessesLocked held t'
  | _ :: t' => held && accessesLocked held t'
  end.

(** The trace never acquires the mutex. *)
Definition lockFree (t : list Event) : bool :=
  bool_decide (Lock ∉ t).

(** The address, password, prefix, host and port [loadCredentials] takes from
    a settings store. *)
Definition storedJid (s : gmap string QVariant) : QString :=
  QVariant_toString (default QVInvalid (s !! KAIDAN_SETTINGS_AUTH_JID)).

Definition storedPassword (s : gmap string QVariant) : QString :=
  fromUtf8 (fromBase64 (toUtf8
    (QVariant_toString (default QVInvalid (s !! KAIDAN_SETTINGS_AUTH_PASSWD))))).

Definition storedPrefix (s : gmap string QVariant) : QString :=
  QVariant_toString
    (default (QVString KAIDAN_JID_RESOURCE_DEFAULT_PREFIX)
       (s !! KAIDAN_SETTINGS_AUTH_JID_RESOURCE_PREFIX)).

Definition storedHost (s : gmap string QVariant) : QString :=
  QVariant_toString (default QVInvalid (s !! KAIDAN_SETTINGS_AUTH_HOST)).

Definition storedPort (s : gmap string QVariant) : Z :=
  QVariant_toInt (default (QVInt PORT_UNSET) (s !! KAIDAN_SETTINGS_AUTH_PORT)).

(** The test of [hasEnoughCredentialsForLogin] on the members, and what the
    function does to evaluate it. *)
Definition sufficient (a : AccountManager) : bool :=
  negb (isEmpty (m_jid a) || isEmpty (m_password a)).

Definition sufficientTrace (a : AccountManager) : list Event :=
  Lock :: Read M_jid :: Unlock ::
  (if isEmpty (m_jid a) then [] else [Lock; Read M_password; Unlock]).

(** The world [loadCredentials] leaves behind when it loads, and what it
    does between its two tests. *)
Definition loaded (w : World) : World :=
  let s := m_settings w in
  let draw := generateStanzaHash numberOfRandomSuffixCharacters (rng w) in
  mkWorld
    (mkAccountManager (storedJid s) (storedPrefix s)
       (storedPrefix s +:+ "." +:+ draw.1) (storedPassword s)
       (storedHost s) (storedPort s)
       (m_customConnectionSettingsEnabled (self w)) false)
    s draw.2.

Definition loadingTrace : list Event :=
  [ SettingsValue KAIDAN_SETTINGS_AUTH_JID;
    Lock; Write M_jid; Write M_hasNewCredentials; Unlock; Emit jidChanged;
    SettingsValue KAIDAN_SETTINGS_AUTH_PASSWD;
    Lock; Write M_password; Write M_hasNewCredentials; Unlock; Emit passwordChanged;
    SettingsValue KAIDAN_SETTINGS_AUTH_JID_RESOURCE_PREFIX;
    Write M_jidResourcePrefix; Read M_jidResourcePrefix; Write M_jidResource;
    SettingsValue KAIDAN_SETTINGS_AUTH_HOST;
    Lock; Write M_host; Write M_hasNewCredentials; Unlock; Emit hostChanged;
    SettingsValue KAIDAN_SETTINGS_AUTH_PORT;
    Lock; Write M_port; Write M_hasNewCredentials; Unlock; Emit portChanged;
    Write M_hasNewCredentials ].

(** The settings store after [storeCustomConnectionSettings]. *)
Definition withConnectionSettings (a : AccountManager) (s : gmap string QVariant)
    : gmap string QVariant :=
  let withHost :=
    if isEmpty (m_host a) then s
    else <[KAIDAN_SETTINGS_AUTH_HOST := QVString (m_host a)]> s in
  if m_port a =? PORT_UNSET then withHost
  else <[KAIDAN_SETTINGS_AUTH_PORT := QVInt (m_port a)]> withHost.

Definition connectionSettingsTrace (a : AccountManager) : list Event :=
  Read M_host ::
  (if isEmpty (m_host a) then []
   else [Read M_host; SettingsSetValue KAIDAN_SETTINGS_AUTH_HOST]) ++
  Read M_port ::
  (if m_port a =? PORT_UNSET then []
   else [Read M_port; SettingsSetValue KAIDAN_SETTINGS_AUTH_PORT]).

(** What the specification asks of a write to an identity field: the flag
    is set afterwards and a change signal was emitted. *)
Definition marksNewAndNotifies (c : M unit) (w : World) : Prop :=
  m_hasNewCredentials (self (after c w)) = true ∧ signals (trace c w) ≠ [].

(** What the specification asks of an accessor: it acquires the mutex, all
    its accesses happen under the mutex, and it emits with the mutex free. *)
Definition guardedByMutex {A} (c : M A) (w : World) : Prop :=
  Lock ∈ trace c w ∧
  accessesLocked false (trace c w) = true ∧
  emitsUnlocked false (trace c w) = true.

(** The resource can be handed out: a prefix that is set comes with a
    resource that is set. *)
Definition resourceReady (a : AccountManager) : Prop :=
  m_jidResourcePrefix a ≠ "" -> m_jidResource a ≠ "".

End Running.

(** ** Which call assigns which member *)

Section Assignments.
Context `{QtLib} `{Globals}.

(** The member functions in whose body (or in the body of a function they
    call) member [m] is assigned. *)
Definition assigns (m : Member) (c : Call) : bool :=
  match m, c with
  | M_jid, (call_setJid _ | call_loadCredentials | call_deleteCredentials)
  | M_password, (call_setPassword _ | call_loadCredentials | call_deleteCredentials)
  | M_host,
      (call_setHost _ | call_resetHost | call_loadCredentials | call_deleteCredentials)
  | M_port,
      (call_setPort _ | call_resetPort | call_loadCredentials | call_deleteCredentials)
  | (M_jidResourcePrefix | M_jidResource),
      (call_setJidResourcePrefix _ | call_loadCredentials | call_deleteCredentials)
  | M_customConnectionSettingsEnabled, call_setCustomConnectionSettingsEnabled _
  | M_hasNewCredentials,
      (call_setJid _ | call_setPassword _ | call_setHost _ | call_resetHost
       | call_setPort _ | call_resetPort | call_setHasNewCredentials _
       | call_loadCredentials | call_deleteCredentials) => true
  | _, _ => false
  end.

(** The members a trace reads, in order. *)
Fixpoint readMembers (t : list Event) : list Member :=
  match t with
  | [] => []
  | Read m :: t' => m :: readMembers t'
  | _ :: t' => readMembers t'
  end.

(** The keys under which a trace writes to the settings store, in order. *)
Fixpoint writtenKeys (t : list Event) : list string :=
  match t with
  | [] => []
  | SettingsSetValue key :: t' => key :: writtenKeys t'
  | _ :: t' => writtenKeys t'
  end.

(** The resource that is cached for a prefix starts with that prefix and a
    dot. *)
Definition resourceTagged (a : AccountManager) : Prop :=
  m_jidResourcePrefix a ≠ "" ->
  ∃ suffix, m_jidResource a = m_jidResourcePrefix a +:+ "." +:+ suffix.

End Assignments.

(** ** Login by URI *)

Module LoginByUri.

(** The three results of [Kaidan::logInByUri] ([LoginByUriState]). *)
Inductive LoginByUriState :=
  | Connecting
  | PasswordNeeded
  | InvalidLoginUri.

Global Instance LoginByUriState_eq_dec : EqDecision LoginByUriState.
Proof. solve_decision. Defined.

(** [Enums::ConnectionState], as held in [Kaidan::m_connectionState]. *)
Inductive ConnectionState :=
  | StateDisconnected
  | StateConnecting
  | StateConnected.

(** What a call of [logInByUri] yields: the returned state, the credentials
    it extracted, and whether it went on to log in. *)
Record Outcome := mkOutcome {
  state : LoginByUriState;
  address : option QString;
  secret : option QString;
  loginAttempted : bool
}.

(** [stripPrefix p s] is the rest of [s] after its prefix [p]. *)
Fixpoint stripPrefix (p s : string) : option string :=
  match p, s with
  | EmptyString, _ => Some s
  | String a p', String b s' =>
      if Ascii.eqb a b then stripPrefix p' s' else None
  | String _ _, EmptyString => None
  end.

(** [splitAt c s] cuts [s] at the first [c]: the part before it, and the
    part after it when there is a [c]. *)
Fixpoint splitAt (c : ascii) (s : string) : string * option string :=
  match s with
  | EmptyString => (EmptyString, None)
  | String a s' =>
      if Ascii.eqb a c then (EmptyString, Some s')
      else (String a (splitAt c s').1, (splitAt c s').2)
  end.

(** The query of a login URI: [login;password=<value>] carries a password,
    the shorter forms listed in Kaidan.h carry none, anything else is not a
    login query. *)
Inductive Query :=
  | WithPassword (value : QString)
  | WithoutPassword
  | OtherQuery.

Definition classifyQuery (query : option string) : Query :=
  match query with
  | None => WithoutPassword
  | Some q =>
      match stripPrefix "login;password=" q with
      | Some value => if isEmpty value then WithoutPassword else WithPassword value
      | None =>
          if bool_decide (q ∈ [""; "login"; "login;"; "login;password"])
          then WithoutPassword
          else OtherQuery
      end
  end.

(** Step 4.3's transition for a login with sufficient credentials. *)
Definition logIn (s : ConnectionState) : ConnectionState :=
  match s with
  | StateDisconnected => StateConnecting
  | _ => s
  end.

(** Modelled from the spec: the body of [Kaidan::logInByUri] (Kaidan.cpp is
    not among the sources; Kaidan.h only declares the function).  The shape
    is [xmpp:<address>?login;password=<value>] with the pre-fill forms that
    the comment in Kaidan.h lists; a URI of another scheme, without address
    or with another query is invalid.  Only the [Connecting] case logs in. *)
Definition logInByUri (uri : QString) (s : ConnectionState) : Outcome * ConnectionState :=
  match stripPrefix "xmpp:" uri with
  | None => (mkOutcome InvalidLoginUri None None false, s)
  | Some rest =>
      let parts := splitAt "?"%char rest in
      if isEmpty parts.1 then (mkOutcome InvalidLoginUri None None false, s)
      else
        match classifyQuery parts.2 with
        | OtherQuery => (mkOutcome InvalidLoginUri None None false, s)
        | WithoutPassword => (mkOutcome PasswordNeeded (Some parts.1) None false, s)
        | WithPassword value =>
            (mkOutcome Connecting (Some parts.1) (Some value) true, logIn s)
        end
  end.

(** The documented shape, as a relation on strings: the scheme, an address
    that is not empty and has no question mark, and nothing more or one of
    the login queries. *)
Fixpoint contains (c : ascii) (s : string) : bool :=
  match s with
  | EmptyString => false
  | String a s' => Ascii.eqb a c || contains c s'
  end.

Definition loginShape (uri : QString) : Prop :=
  ∃ addr tail,
    uri = "xmpp:" +:+ addr +:+ tail ∧ addr ≠ "" ∧ contains "?" addr = false ∧
    (tail ∈ [""; "?"; "?login"; "?login;"; "?login;password"] ∨
     ∃ value, tail = "?login;password=" +:+ value).

End LoginByUri.

(** ** The camera image capture (CameraImageCapture.cpp) *)

Module CameraImageCapture.

(** [QMultimedia::AvailabilityStatus]. *)
Inductive AvailabilityStatus :=
  | Available
  | ServiceMissing
  | Busy
  | ResourceError.

Global Instance AvailabilityStatus_eq_dec : EqDecision AvailabilityStatus.
Proof. solve_decision. Defined.

(** What the class takes from Qt: URLs, media objects, and its base class
    [QCameraImageCapture], whose state is [Capture]. *)
Class QtMultimedia := {
  QUrl : Type;
  (** the default-constructed [QUrl] *)
  QUrl_empty : QUrl;
  QUrl_fromLocalFile : QString -> QUrl;
  QMediaObject : Type;
  Capture : Type;
  (** [QCameraImageCapture::availability()] *)
  availability : Capture -> AvailabilityStatus;
  (** [QCameraImageCapture::setMediaObject(mediaObject)] *)
  QCameraImageCapture_setMediaObject : QMediaObject -> Capture -> bool * Capture
}.

Section Model.
Context `{QtMultimedia}.

(** The object: its base-class part and the one member it adds. *)
Record Object := mkObject {
  base : Capture;
  m_actualLocation : QUrl
}.

(** The two signals the class emits itself. *)
Inductive CaptureSignal :=
  | actualLocationChanged (location : QUrl)
  | availabilityChanged (status : AvailabilityStatus).

(** A call posted to the event loop with [Qt::QueuedConnection].  The class
    posts one kind of call: the lambda of [setMediaObject]. *)
Inductive Posted :=
  | EmitAvailability.

(** The constructor: the base class is constructed, the member is
    default-constructed, the slot below is connected to [imageSaved]. *)
Definition construct (b : Capture) : Object := mkObject b QUrl_empty.

(** The lambda connected to [QCameraImageCapture::imageSaved]. *)
Definition onImageSaved (id : Z) (filePath : QString) (o : Object)
    : Object * list CaptureSignal :=
  let o' := mkObject (base o) (QUrl_fromLocalFile filePath) in
  (o', [actualLocationChanged (m_actualLocation o')]).

Definition actualLocation (o : Object) : QUrl := m_actualLocation o.

(** [setMediaObject]: the result, the object and the event queue
    afterwards. *)
Definition setMediaObject (mediaObject : QMediaObject) (o : Object) (queue : list Posted)
    : bool * Object * list Posted :=
  let previousAvailability := availability (base o) in
  let called := QCameraImageCapture_setMediaObject mediaObject (base o) in
  let o' := mkObject called.2 (m_actualLocation o) in
  if bool_decide (previousAvailability ≠ availability (base o'))
  then (called.1, o', queue ++ [EmitAvailability])
  else (called.1, o', queue).

(** The event loop runs a posted call on the object as it is by then. *)
Definition deliver (p : Posted) (o : Object) : list CaptureSignal :=
  match p with
  | EmitAvailability => [availabilityChanged (availability (base o))]
  end.

Fixpoint deliverAll (queue : list Posted) (o : Object) : list CaptureSignal :=
  match queue with
  | [] => []
  | p :: queue' => deliver p o ++ deliverAll queue' o
  end.

(** A run of [imageSaved] signals, each with its id and file path. *)
Fixpoint saveAll (saved : list (Z * QString)) (o : Object) : Object * list CaptureSignal :=
  match saved with
  | [] => (o, [])
  | (id, filePath) :: saved' =>
      let step := onImageSaved id filePath o in
      let rest := saveAll saved' step.1 in
      (rest.1, step.2 ++ rest.2)
  end.

(** A run of [setMediaObject] calls without a return to the event loop. *)
Fixpoint setAll (mediaObjects : list QMediaObject) (o : Object) (queue : list Posted)
    : list bool * Object * list Posted :=
  match mediaObjects with
  | [] => ([], o, queue)
  | mediaObject :: rest =>
      let step := setMediaObject mediaObject o queue in
      let run := setAll rest step.1.2 step.2 in
      (step.1.1 :: run.1.1, run.1.2, run.2)
  end.

(** The same run on the base class alone: its results, its final state and
    how often the availability differed across a call. *)
Fixpoint baseRun (mediaObjects : list QMediaObject) (b : Capture)
    : list bool * Capture * nat :=
  match mediaObjects with
  | [] => ([], b, O)
  | mediaObject :: rest =>
      let called := QCameraImageCapture_setMediaObject mediaObject b in
      let run := baseRun rest called.2 in
      (called.1 :: run.1.1, run.1.2,
       ((if bool_decide (availability b ≠ availability called.2) then 1 else 0)
        + run.2)%nat)
  end.

End Model.

End CameraImageCapture.

(** ** A concrete platform

    A small deterministic instance of the collaborators, used to run the
    member functions on concrete inputs. *)

Module Sample.

Definition alphabet : list ascii :=
  String.list_ascii_of_string "1234567890abcdefghijklmnopqrstuvwxyzABCDEFGHIJKLMNOPQRSTUVWXYZ".

(** The generator state is a counter; a draw of [length] characters walks
    the alphabet from the counter on. *)
Fixpoint draw (length : nat) (seed : nat) : QString :=
  match length with
  | O => EmptyString
  | S n => String (nth (seed `mod` 62)%nat alphabet "0"%char) (draw n (S seed))
  end.

Definition decimal (s : QString) : Z :=
  match NilZero.int_of_string s with
  | Some i => Z.of_int i
  | None => 0
  end.

Definition truth (s : QString) : bool :=
  negb (bool_decide (s ∈ [""; "0"; "false"])).

(** The password codec of this platform is the identity on bytes; nothing
    below depends on the encoding. *)
#[export] Instance qt : QtLib := {|
  Rng := nat;
  generateStanzaHash := fun length seed => (draw length seed, (seed + length)%nat);
  toUtf8 := String.list_byte_of_string;
  fromUtf8 := String.string_of_list_byte;
  toBase64 := fun bytes => bytes;
  fromBase64 := fun bytes => bytes;
  QString_toInt := decimal;
  QString_number := fun i => NilZero.string_of_int (Z.to_int i);
  QString_toBool := truth
|}.

#[export] Instance globals : Globals := {|
  KAIDAN_SETTINGS_AUTH_ONLINE := "auth/online";
  KAIDAN_SETTINGS_AUTH_JID := "auth/jid";
  KAIDAN_SETTINGS_AUTH_JID_RESOURCE_PREFIX := "auth/jidResourcePrefix";
  KAIDAN_SETTINGS_AUTH_PASSWD := "auth/password";
  KAIDAN_SETTINGS_AUTH_HOST := "auth/host";
  KAIDAN_SETTINGS_AUTH_PORT := "auth/port";
  KAIDAN_SETTINGS_AUTH_USE_CUSTOM := "auth/useCustomConnectionSettings";
  KAIDAN_SETTINGS_AUTH_PASSWD_VISIBILITY := "auth/passwordVisibility";
  KAIDAN_SETTINGS_NOTIFICATIONS_MUTED := "muted/";
  KAIDAN_SETTINGS_FAVORITE_EMOJIS := "emojis/favorites";
  KAIDAN_JID_RESOURCE_DEFAULT_PREFIX := "Kaidan";
  numberOfRandomSuffixCharacters := 4
|}.

(** A freshly constructed account manager over an empty settings file. *)
Definition fresh : World := mkWorld (constructed false false) ∅ 0%nat.

(** A settings file that holds an account and a custom port. *)
Definition stored : gmap string QVariant :=
  <["auth/jid" := QVString "alice@example.org"]>
    (<["auth/password" := QVString "secret"]>
       (<["auth/port" := QVString "5223"]> ∅)).

(** A capture service whose availability is all of its state; a media
    object stands for the availability of the service it gives access to. *)
#[export] Instance multimedia : CameraImageCapture.QtMultimedia := {|
  CameraImageCapture.QUrl := string;
  CameraImageCapture.QUrl_empty := "";
  CameraImageCapture.QUrl_fromLocalFile := fun filePath => "file://" +:+ filePath;
  CameraImageCapture.QMediaObject := CameraImageCapture.AvailabilityStatus;
  CameraImageCapture.Capture := CameraImageCapture.AvailabilityStatus;
  CameraImageCapture.availability := fun status => status;
  CameraImageCapture.QCameraImageCapture_setMediaObject :=
    fun mediaObject _ => (true, mediaObject)
|}.

End Sample.

(** * Properties *)

Section Properties.
Context `{QtLib} `{Globals}.

Lemma isEmpty_true (s : QString) : isEmpty s = true <-> s = "".
Proof. destruct s; cbn; split; congruence. Qed.

Lemma isEmpty_false (s : QString) : isEmpty s = false <-> s ≠ "".
Proof. destruct s; cbn; split; congruence. Qed.

(** *** Sequencing *)

Lemma bind_run {A B} (c : M A) (k : A -> M B) (w : World) :
  bind c k w =
    let '(a, w1, t1) := c w in
    let '(b, w2, t2) := k a w1 in
    (b, w2, t1 ++ t2).
Proof. reflexivity. Qed.

Lemma after_bind {A B} (c : M A) (k : A -> M B) (w : World) :
  after (bind c k) w = after (k (result c w)) (after c w).
Proof.
  unfold after, result, bind.
  destruct (c w) as [[a w1] t1]; cbn.
  destruct (k a w1) as [[b w2] t2]; reflexivity.
Qed.

Lemma discard_run {A} (c : M A) (w : World) :
  discard c w = (tt, (c w).1.2, (c w).2).
Proof.
  unfold discard, bind, ret.
  destruct (c w) as [[a w1] t1]; cbn. now rewrite app_nil_r.
Qed.

Lemma after_performAll_cons (c : Call) (cs : list Call) (w : World) :
  after (performAll (c :: cs)) w = after (performAll cs) (after (perform c) w).
Proof. cbn [performAll]. apply after_bind. Qed.

(** *** What the member functions with tests in them compute *)

Lemma hasEnoughCredentialsForLogin_run (w : World) :
  hasEnoughCredentialsForLogin w = (sufficient (self w), w, sufficientTrace (self w)).
Proof.
  unfold hasEnoughCredentialsForLogin, sufficient, sufficientTrace.
  rewrite bind_run. cbn.
  destruct (isEmpty (m_jid (self w))); reflexivity.
Qed.

Lemma port_run (w : World) :
  port w =
    (if m_port (self w) <? 0 then PORT_DEFAULT else m_port (self w), w,
     Lock :: Read M_port ::
     (if m_port (self w) <? 0 then [] else [Read M_port]) ++ [Unlock]).
Proof.
  unfold port. rewrite bind_run. cbn.
  destruct (m_port (self w) <? 0); reflexivity.
Qed.

Lemma jidResource_run (w : World) :
  jidResource w =
    if isEmpty (m_jidResourcePrefix (self w))
    then
      let draw := generateStanzaHash numberOfRandomSuffixCharacters (rng w) in
      ("." +:+ draw.1, mkWorld (self w) (m_settings w) draw.2,
       [Read M_jidResourcePrefix; Read M_jidResourcePrefix])
    else (m_jidResource (self w), w, [Read M_jidResourcePrefix; Read M_jidResource]).
Proof.
  unfold jidResource. rewrite bind_run. cbn.
  destruct (m_jidResourcePrefix (self w)) eqn:Hprefix; cbn; now rewrite ?Hprefix.
Qed.

Lemma storeCustomConnectionSettings_run (w : World) :
  storeCustomConnectionSettings w =
    (tt, mkWorld (self w) (withConnectionSettings (self w) (m_settings w)) (rng w),
     connectionSettingsTrace (self w)).
Proof.
  unfold storeCustomConnectionSettings, withConnectionSettings, connectionSettingsTrace.
  rewrite bind_run. cbn.
  destruct (isEmpty (m_host (self w))); cbn;
    destruct (m_port (self w) =? PORT_UNSET); cbn; try reflexivity;
    destruct w; reflexivity.
Qed.

Lemma storeCredentials_run (w : World) :
  storeCredentials w =
    (tt,
     mkWorld (self w)
       (withConnectionSettings (self w)
          (<[KAIDAN_SETTINGS_AUTH_PASSWD :=
               QVString (fromUtf8 (toBase64 (toUtf8 (m_password (self w)))))]>
             (<[KAIDAN_SETTINGS_AUTH_JID := QVString (m_jid (self w))]> (m_settings w))))
       (rng w),
     [Lock; Read M_jid; Unlock; SettingsSetValue KAIDAN_SETTINGS_AUTH_JID;
      Lock; Read M_password; Unlock; SettingsSetValue KAIDAN_SETTINGS_AUTH_PASSWD]
     ++ connectionSettingsTrace (self w)).
Proof.
  unfold storeCredentials.
  rewrite !bind_run. cbn -[storeCustomConnectionSettings].
  rewrite storeCustomConnectionSettings_run. reflexivity.
Qed.

Lemma deleteSettingsInSettingsFile_run (keys : list string) (w : World) :
  deleteSettingsInSettingsFile keys w =
    (tt,
     mkWorld (self w) (foldl (fun m key => QSettings_remove key m) (m_settings w) keys) (rng w),
     SettingsRemove <$> keys).
Proof.
  revert w. induction keys as [|key keys IH]; intros w.
  - destruct w; reflexivity.
  - cbn [deleteSettingsInSettingsFile foldl fmap list_fmap].
    rewrite bind_run. cbn. rewrite IH. reflexivity.
Qed.

Lemma deleteSettings_run (w : World) :
  deleteSettings w =
    (tt,
     mkWorld (self w)
       (foldl (fun m key => QSettings_remove key m) (m_settings w)
          [ KAIDAN_SETTINGS_AUTH_ONLINE; KAIDAN_SETTINGS_NOTIFICATIONS_MUTED;
            KAIDAN_SETTINGS_FAVORITE_EMOJIS ])
       (rng w),
     [ SettingsRemove KAIDAN_SETTINGS_AUTH_ONLINE;
       SettingsRemove KAIDAN_SETTINGS_NOTIFICATIONS_MUTED;
       SettingsRemove KAIDAN_SETTINGS_FAVORITE_EMOJIS ]).
Proof. unfold deleteSettings. apply deleteSettingsInSettingsFile_run. Qed.

Lemma deleteCredentials_run (w : World) :
  deleteCredentials w =
    (tt,
     mkWorld
       (mkAccountManager "" "" "" "" "" PORT_UNSET
          (m_customConnectionSettingsEnabled (self w)) true)
       (foldl (fun m key => QSettings_remove key m) (m_settings w) credentialKeys)
       (rng w),
     (SettingsRemove <$> credentialKeys) ++
     [ Lock; Write M_jid; Write M_hasNewCredentials; Unlock; Emit jidChanged;
       Write M_jidResourcePrefix; Write M_jidResource;
       Lock; Write M_password; Write M_hasNewCredentials; Unlock; Emit passwordChanged;
       Lock; Write M_host; Write M_hasNewCredentials; Unlock; Emit hostChanged;
       Lock; Write M_port; Write M_hasNewCredentials; Unlock; Emit portChanged;
       Emit newCredentialsNeeded ]).
Proof.
  unfold deleteCredentials.
  rewrite bind_run, deleteSettingsInSettingsFile_run. reflexivity.
Qed.

Lemma loadCredentials_run (w : World) :
  loadCredentials w =
    if sufficient (self w) then (true, w, sufficientTrace (self w))
    else
      (sufficient (self (loaded w)), loaded w,
       sufficientTrace (self w) ++ loadingTrace ++ sufficientTrace (self (loaded w)) ++
       (if sufficient (self (loaded w)) then [] else [Emit newCredentialsNeeded])).
Proof.
  unfold loadCredentials.
  rewrite bind_run, hasEnoughCredentialsForLogin_run.
  destruct (sufficient (self w)); cbn.
  - now rewrite app_nil_r.
  - rewrite bind_run, hasEnoughCredentialsForLogin_run.
    unfold loaded, storedJid, storedPassword, storedPrefix, storedHost, storedPort.
    cbn.
    destruct (sufficient _); cbn; rewrite ?app_nil_r; reflexivity.
Qed.
(** Runs the member functions of the goal on their worlds. *)
Ltac run_members :=
  unfold result, after, trace;
  rewrite ?discard_run;
  rewrite ?hasEnoughCredentialsForLogin_run, ?port_run, ?jidResource_run,
    ?storeCustomConnectionSettings_run, ?storeCredentials_run,
    ?deleteSettings_run, ?deleteCredentials_run, ?loadCredentials_run;
  cbn.

(** Splits on the tests a member function makes. *)
Ltac split_tests :=
  unfold sufficient, sufficientTrace, connectionSettingsTrace;
  repeat match goal with
  | |- context [isEmpty ?s] => destruct (isEmpty s) eqn:?; cbn
  | |- context [Z.eqb ?a ?b] => destruct (Z.eqb a b) eqn:?; cbn
  | |- context [Z.ltb ?a ?b] => destruct (Z.ltb a b) eqn:?; cbn
  end.

(** *** Sufficient credentials *)

(** C1: [hasEnoughCredentialsForLogin] returns true exactly when the stored
    address and the stored password are both non-empty, and false exactly
    when one of them is empty; it answers true for an address and a password
    of white space only and for ones outside ASCII (here the UTF-8 bytes of
    U+4E2D and of U+00FC). *)
Theorem hasEnoughCredentialsForLogin_iff (w : World) :
  (result hasEnoughCredentialsForLogin w = true <->
     m_jid (self w) ≠ "" ∧ m_password (self w) ≠ "") ∧
  (result hasEnoughCredentialsForLogin w = false <->
     m_jid (self w) = "" ∨ m_password (self w) = "") ∧
  (∀ a,
     result hasEnoughCredentialsForLogin
       (mkWorld (set_member M_password "   " (set_member M_jid " " a))
          (m_settings w) (rng w)) = true) ∧
  (∀ a,
     result hasEnoughCredentialsForLogin
       (mkWorld
          (set_member M_password (String (ascii_of_nat 195) (String (ascii_of_nat 188) ""))
             (set_member M_jid
                (String (ascii_of_nat 228) (String (ascii_of_nat 184)
                   (String (ascii_of_nat 173) ""))) a))
          (m_settings w) (rng w)) = true).
Proof.
  unfold result. rewrite hasEnoughCredentialsForLogin_run. cbn [fst]. unfold sufficient.
  split; [|split; [|split]].
  - rewrite negb_true_iff, orb_false_iff, !isEmpty_false. reflexivity.
  - rewrite negb_false_iff, orb_true_iff, !isEmpty_true. reflexivity.
  - intros a. now rewrite hasEnoughCredentialsForLogin_run.
  - intros a. now rewrite hasEnoughCredentialsForLogin_run.
Qed.

(** *** Loading the credentials *)

(** C2: when the credentials are already sufficient, [loadCredentials]
    returns true, leaves the world as it is, writes no member and emits no
    signal.  Otherwise it sets address, password, resource prefix (the
    default prefix when the store has none), host and port from the settings
    store, its last write resets [m_hasNewCredentials] to false, it returns
    whether the loaded credentials are sufficient, and it emits
    [newCredentialsNeeded] (after the four change signals) exactly when it
    returns false. *)
Theorem loadCredentials_spec (w : World) :
  if result hasEnoughCredentialsForLogin w then
    result loadCredentials w = true ∧
    after loadCredentials w = w ∧
    written (trace loadCredentials w) = [] ∧
    signals (trace loadCredentials w) = []
  else
    let s := m_settings w in
    let a' := self (after loadCredentials w) in
    m_jid a' = storedJid s ∧
    m_password a' = storedPassword s ∧
    m_jidResourcePrefix a' = storedPrefix s ∧
    storedPrefix (delete KAIDAN_SETTINGS_AUTH_JID_RESOURCE_PREFIX s) =
      KAIDAN_JID_RESOURCE_DEFAULT_PREFIX ∧
    m_jidResource a' =
      storedPrefix s +:+ "." +:+
        (generateStanzaHash numberOfRandomSuffixCharacters (rng w)).1 ∧
    m_host a' = storedHost s ∧
    m_port a' = storedPort s ∧
    m_customConnectionSettingsEnabled a' = m_customConnectionSettingsEnabled (self w) ∧
    m_settings (after loadCredentials w) = s ∧
    m_hasNewCredentials a' = false ∧
    last (written (trace loadCredentials w)) = Some M_hasNewCredentials ∧
    result loadCredentials w =
      result hasEnoughCredentialsForLogin (after loadCredentials w) ∧
    signals (trace loadCredentials w) =
      [jidChanged; passwordChanged; hostChanged; portChanged] ++
      (if result loadCredentials w then [] else [newCredentialsNeeded]).
Proof.
  unfold result, after, trace.
  rewrite loadCredentials_run, hasEnoughCredentialsForLogin_run. cbn [fst snd].
  destruct (sufficient (self w)) eqn:Hw; cbn zeta.
  - cbn [fst snd]. repeat split; unfold sufficientTrace; now destruct (isEmpty _).
  - rewrite hasEnoughCredentialsForLogin_run. cbn [fst snd].
    assert (Hdefault :
      storedPrefix (delete KAIDAN_SETTINGS_AUTH_JID_RESOURCE_PREFIX (m_settings w)) =
        KAIDAN_JID_RESOURCE_DEFAULT_PREFIX).
    { unfold storedPrefix. now rewrite lookup_delete_eq. }
    destruct (sufficient (self (loaded w)));
      unfold sufficientTrace, loadingTrace;
      destruct (isEmpty (m_jid (self w)));
      destruct (isEmpty (m_jid (self (loaded w))));
      now repeat split.
Qed.

(** *** Deleting the credentials *)

Lemma removes_self (key : string) : removes key key = true.
Proof.
  unfold removes. rewrite (bool_decide_eq_true_2 (key = key)) by reflexivity.
  now rewrite orb_true_r.
Qed.

Lemma QSettings_remove_lookup (key : string) (m : gmap string QVariant) (k : string) :
  QSettings_remove key m !! k = if removes key k then None else m !! k.
Proof.
  unfold QSettings_remove.
  destruct (removes key k) eqn:Hk.
  - apply map_lookup_filter_None. right. intros x _. cbn. congruence.
  - destruct (m !! k) as [x|] eqn:Hm.
    + apply map_lookup_filter_Some. now split.
    + apply map_lookup_filter_None. now left.
Qed.

Lemma foldl_remove_lookup (keys : list string) (m : gmap string QVariant) (k : string) :
  foldl (fun m key => QSettings_remove key m) m keys !! k =
    if existsb (fun key => removes key k) keys then None else m !! k.
Proof.
  revert m. induction keys as [|key keys IH]; intros m; cbn [foldl existsb].
  - reflexivity.
  - rewrite IH, QSettings_remove_lookup.
    destruct (removes key k); cbn; [|reflexivity].
    now destruct (existsb _ keys).
Qed.

Lemma removed_member (keys : list string) (k : string) :
  k ∈ keys -> existsb (fun key => removes key k) keys = true.
Proof.
  intros Hk. apply existsb_exists. exists k.
  split; [now apply list_elem_of_In|apply removes_self].
Qed.

(** C4: [deleteCredentials] removes every key of its list from the settings
    store, so that none of them is stored afterwards; it leaves address,
    resource prefix, resource, password and host empty and the port at the
    unset sentinel; and it emits [newCredentialsNeeded] (after the change
    signals of the four setters).  Afterwards [jid()], [password()] and
    [host()] return the empty string, [port()] the default port,
    [customConnectionSettingsEnabled()] false, and [jidResource()], the
    prefix being empty, a resource generated on demand. *)
Theorem deleteCredentials_spec (w : World) :
  let w' := after deleteCredentials w in
  m_settings w' = foldl (fun m key => QSettings_remove key m) (m_settings w) credentialKeys ∧
  Forall (fun key => m_settings w' !! key = None) credentialKeys ∧
  m_jid (self w') = "" ∧
  m_jidResourcePrefix (self w') = "" ∧
  m_jidResource (self w') = "" ∧
  m_password (self w') = "" ∧
  m_host (self w') = "" ∧
  m_port (self w') = PORT_UNSET ∧
  signals (trace deleteCredentials w) =
    [jidChanged; passwordChanged; hostChanged; portChanged; newCredentialsNeeded] ∧
  result jid w' = "" ∧
  result password w' = "" ∧
  result host w' = "" ∧
  result port w' = PORT_DEFAULT ∧
  result customConnectionSettingsEnabled w' = false ∧
  result jidResource w' =
    "." +:+ (generateStanzaHash numberOfRandomSuffixCharacters (rng w)).1.
Proof.
  cbn zeta. unfold result, after, trace.
  rewrite deleteCredentials_run, jidResource_run, port_run. cbn [fst snd].
  split; [reflexivity|]. split.
  - apply Forall_forall. intros key Hkey. cbn [m_settings].
    rewrite foldl_remove_lookup. now rewrite removed_member.
  - repeat split.
    cbn -[foldl]. rewrite foldl_remove_lookup.
    rewrite removed_member; [reflexivity|].
    unfold credentialKeys. set_solver.
Qed.

(** C10: right after [deleteCredentials], [hasNewCredentials()] returns
    true.  The fields are cleared through [setJid], [setPassword], [setHost]
    and [setPort], each of which writes [m_hasNewCredentials]; the last write
    of the whole function is such a write of true, although address,
    password and host are empty and the port is unset by then. *)
Theorem deleteCredentials_marks_new (w : World) :
  let w' := after deleteCredentials w in
  result hasNewCredentials w' = true ∧
  written (trace deleteCredentials w) =
    [ M_jid; M_hasNewCredentials; M_jidResourcePrefix; M_jidResource;
      M_password; M_hasNewCredentials; M_host; M_hasNewCredentials;
      M_port; M_hasNewCredentials ] ∧
  m_jid (self w') = "" ∧ m_password (self w') = "" ∧
  m_host (self w') = "" ∧ m_port (self w') = PORT_UNSET ∧
  result hasEnoughCredentialsForLogin w' = false.
Proof.
  cbn zeta. run_members. now repeat split.
Qed.

(** *** The custom port *)

(** C7: the unset sentinel is negative, hence no valid port, and
    [PORT_DEFAULT] is 5222.  A freshly constructed object and one after
    [resetPort()] store the sentinel, [port()] returns 5222 for them and
    leaves the sentinel in place.  After [setPort(p)] with a valid port [p],
    [port()] returns [p].  [storeCustomConnectionSettings] writes the host
    to the settings store exactly when it is not empty and the port exactly
    when it is not the sentinel, and nothing else. *)
Theorem port_default_at_read (p : Z) (w : World) :
  0 <= p <= 65535 ->
  (PORT_UNSET < 0 ∧ p ≠ PORT_UNSET ∧ PORT_DEFAULT = 5222) ∧
  (∀ customEnabled hasNew s r,
     let fresh := mkWorld (constructed customEnabled hasNew) s r in
     m_port (self fresh) = PORT_UNSET ∧
     result port fresh = PORT_DEFAULT ∧
     after port fresh = fresh) ∧
  (m_port (self (after resetPort w)) = PORT_UNSET ∧
   result port (after resetPort w) = PORT_DEFAULT ∧
   m_port (self (after port (after resetPort w))) = PORT_UNSET) ∧
  (m_port (self (after (setPort p) w)) = p ∧
   result port (after (setPort p) w) = p) ∧
  (let withHost :=
     if isEmpty (m_host (self w)) then m_settings w
     else <[KAIDAN_SETTINGS_AUTH_HOST := QVString (m_host (self w))]> (m_settings w) in
   m_settings (after storeCustomConnectionSettings w) =
     if m_port (self w) =? PORT_UNSET then withHost
     else <[KAIDAN_SETTINGS_AUTH_PORT := QVInt (m_port (self w))]> withHost).
Proof.
  intros Hp.
  split; [unfold PORT_UNSET, PORT_DEFAULT; lia|].
  split; [intros; run_members; now repeat split|].
  split; [run_members; now repeat split|].
  split.
  - run_members. split; [reflexivity|].
    destruct (p <? 0) eqn:Hneg; [apply Z.ltb_lt in Hneg; lia|reflexivity].
  - run_members. reflexivity.
Qed.

(** *** The custom-connection switch *)

(** C9: [customConnectionSettingsEnabled()] returns the truth value of what
    the settings store holds under [KAIDAN_SETTINGS_AUTH_USE_CUSTOM].
    [setCustomConnectionSettingsEnabled(b)] writes the member only and
    leaves the store alone, so the getter returns after it what it returned
    before: [b] exactly when the store holds [b], and for the negation of
    the stored value the getter does not return what was set. *)
Theorem customConnectionSettingsEnabled_reads_store (b : bool) (w : World) :
  let stored :=
    QVariant_toBool (default QVInvalid (m_settings w !! KAIDAN_SETTINGS_AUTH_USE_CUSTOM)) in
  let w' := after (setCustomConnectionSettingsEnabled b) w in
  result customConnectionSettingsEnabled w = stored ∧
  m_customConnectionSettingsEnabled (self w') = b ∧
  m_settings w' = m_settings w ∧
  result customConnectionSettingsEnabled w' = stored ∧
  (result customConnectionSettingsEnabled w' = b <-> stored = b) ∧
  result customConnectionSettingsEnabled
    (after (setCustomConnectionSettingsEnabled (negb stored)) w) ≠ negb stored.
Proof.
  cbn. repeat split; try tauto.
  now destruct (QVariant_toBool _).
Qed.
(** *** The flag for new credentials *)

Lemma perform_keeps_flag (c : Call) (w : World) :
  clearsFlag c = false ->
  m_hasNewCredentials (self w) = true ->
  m_hasNewCredentials (self (after (perform c) w)) = true.
Proof.
  intros Hc Hflag.
  destruct c as [ | | | | | | | | | | | | | | |b| | | | | | | | ];
    try discriminate Hc; cbn [perform]; run_members; split_tests;
    try assumption; try reflexivity.
  destruct b; [reflexivity|discriminate Hc].
Qed.

Lemma performAll_keeps_flag (cs : list Call) (w : World) :
  Forall (fun c => clearsFlag c = false) cs ->
  m_hasNewCredentials (self w) = true ->
  m_hasNewCredentials (self (after (performAll cs) w)) = true.
Proof.
  intros Hcs. revert w.
  induction Hcs as [|c cs Hc _ IH]; intros w Hflag.
  - exact Hflag.
  - rewrite after_performAll_cons. apply IH. now apply perform_keeps_flag.
Qed.

(** C3, as the code has it: a call of [setJid], [setPassword], [setHost] or
    [setPort] (also through [resetHost] and [resetPort]) leaves
    [m_hasNewCredentials] true and emits the change signal of its field and
    nothing else, and the flag is still true after any further calls among
    which there is neither [setHasNewCredentials(false)] nor
    [loadCredentials].  [setJidResourcePrefix] leaves the flag as it was and
    emits no signal. *)
Theorem identity_write_marks_new (c : Call) (sig : Signal) (cs : list Call) (w : World) :
  fieldSignal c = Some sig ->
  Forall (fun c' => clearsFlag c' = false) cs ->
  m_hasNewCredentials (self (after (perform c) w)) = true ∧
  signals (trace (perform c) w) = [sig] ∧
  m_hasNewCredentials (self (after (performAll (c :: cs)) w)) = true ∧
  (∀ prefix,
     m_hasNewCredentials (self (after (setJidResourcePrefix prefix) w)) =
       m_hasNewCredentials (self w) ∧
     signals (trace (setJidResourcePrefix prefix) w) = []).
Proof.
  intros Hsig Hcs.
  assert (Hset : m_hasNewCredentials (self (after (perform c) w)) = true).
  { destruct c; try discriminate Hsig; reflexivity. }
  split; [exact Hset|]. split.
  - destruct c; try discriminate Hsig; cbn in Hsig;
      injection Hsig as <-; reflexivity.
  - split.
    + rewrite after_performAll_cons. now apply performAll_keeps_flag.
    + intros prefix. split; reflexivity.
Qed.

(** *** The resource *)

Lemma resource_nonempty (prefix suffix : QString) : prefix +:+ "." +:+ suffix ≠ "".
Proof. destruct prefix; discriminate. Qed.

Lemma perform_keeps_resource (c : Call) (w : World) :
  changesPrefix c = false ->
  m_jidResourcePrefix (self (after (perform c) w)) = m_jidResourcePrefix (self w) ∧
  m_jidResource (self (after (perform c) w)) = m_jidResource (self w).
Proof.
  intros Hc.
  destruct c; try discriminate Hc; cbn [perform];
    run_members; split_tests; split; reflexivity.
Qed.

Lemma performAll_keeps_resource (cs : list Call) (w : World) :
  Forall (fun c => changesPrefix c = false) cs ->
  m_jidResourcePrefix (self (after (performAll cs) w)) = m_jidResourcePrefix (self w) ∧
  m_jidResource (self (after (performAll cs) w)) = m_jidResource (self w).
Proof.
  intros Hcs. revert w.
  induction Hcs as [|c cs Hc _ IH]; intros w.
  - split; reflexivity.
  - rewrite after_performAll_cons.
    destruct (IH (after (perform c) w)) as [-> ->].
    now apply perform_keeps_resource.
Qed.

Lemma perform_resourceReady (c : Call) (w : World) :
  resourceReady (self w) -> resourceReady (self (after (perform c) w)).
Proof.
  intros Hw.
  destruct (changesPrefix c) eqn:Hc.
  - destruct c; try discriminate Hc; cbn [perform]; unfold resourceReady.
    + intros _. apply resource_nonempty.
    + run_members. destruct (sufficient (self w)); [exact Hw|].
      intros _. apply resource_nonempty.
    + run_members. intros Hne. now contradict Hne.
  - unfold resourceReady.
    destruct (perform_keeps_resource c w Hc) as [-> ->]. exact Hw.
Qed.

Lemma performAll_resourceReady (cs : list Call) (w : World) :
  resourceReady (self w) -> resourceReady (self (after (performAll cs) w)).
Proof.
  revert w. induction cs as [|c cs IH]; intros w Hw.
  - exact Hw.
  - rewrite after_performAll_cons. now apply IH, perform_resourceReady.
Qed.

Lemma jidResource_result (w : World) :
  result jidResource w =
    if isEmpty (m_jidResourcePrefix (self w))
    then "." +:+ (generateStanzaHash numberOfRandomSuffixCharacters (rng w)).1
    else m_jidResource (self w).
Proof.
  unfold result. rewrite jidResource_run.
  now destruct (isEmpty (m_jidResourcePrefix (self w))).
Qed.

(** C6: [setJidResourcePrefix(P)] with a non-empty [P] stores [P], a dot and
    a suffix drawn at that moment, and [jidResource()] returns this very
    string after any further calls that do not assign the prefix.  With an
    empty prefix each [jidResource()] call returns a dot and a fresh draw,
    so two calls in a row return the results of two successive draws, which
    differ for a generator whose draws differ.  From construction on,
    whatever was called, [jidResource()] never returns the empty string. *)
Theorem jidResource_cached (P : QString) (cs : list Call) (w : World) :
  P ≠ "" ->
  Forall (fun c => changesPrefix c = false) cs ->
  let cached :=
    P +:+ "." +:+ (generateStanzaHash numberOfRandomSuffixCharacters (rng w)).1 in
  let w1 := after (setJidResourcePrefix P) w in
  (m_jidResource (self w1) = cached ∧
   result jidResource w1 = cached ∧
   result jidResource (after (performAll cs) w1) = cached) ∧
  (∀ a s r,
     let w0 := mkWorld (set_member M_jidResourcePrefix "" a) s r in
     let first := generateStanzaHash numberOfRandomSuffixCharacters r in
     let second := generateStanzaHash numberOfRandomSuffixCharacters first.2 in
     result jidResource w0 = "." +:+ first.1 ∧
     result jidResource (after jidResource w0) = "." +:+ second.1) ∧
  (∃ w0 : @World Sample.qt,
     m_jidResourcePrefix (self w0) = "" ∧
     @result Sample.qt _ (@jidResource Sample.qt Sample.globals) w0 ≠
     @result Sample.qt _ (@jidResource Sample.qt Sample.globals)
       (@after Sample.qt _ (@jidResource Sample.qt Sample.globals) w0)) ∧
  (∀ customEnabled hasNew s r calls,
     result jidResource
       (after (performAll calls) (mkWorld (constructed customEnabled hasNew) s r)) ≠ "").
Proof.
  intros HP Hcs. cbn zeta.
  assert (HPe : isEmpty P = false) by now apply isEmpty_false.
  split; [|split; [|split]].
  - split; [reflexivity|]. split.
    + rewrite jidResource_result. cbn. now rewrite HPe.
    + rewrite jidResource_result.
      destruct (performAll_keeps_resource cs (after (setJidResourcePrefix P) w) Hcs)
        as [-> ->].
      cbn. now rewrite HPe.
  - intros a s r. split; reflexivity.
  - exists Sample.fresh. split; [reflexivity|]. vm_compute. discriminate.
  - intros customEnabled hasNew s r calls.
    rewrite jidResource_result.
    destruct (isEmpty (m_jidResourcePrefix _)) eqn:He; [discriminate|].
    apply performAll_resourceReady.
    + intros Hne. now contradict Hne.
    + now apply isEmpty_false.
Qed.

(** *** The mutex *)

(** C8, as the code has it: no member function emits a signal while it
    holds the mutex, and each leaves the mutex free.  The getters and
    setters of address, password, host, port and of the custom-connection
    switch acquire the mutex and make all their accesses under it.  The
    accessors of the resource and of the flag ([setJidResourcePrefix],
    [jidResource], [hasNewCredentials], [setHasNewCredentials]) never
    acquire it and emit nothing. *)
Theorem mutex_free_at_emit (c : Call) (w : World) :
  let t := trace (perform c) w in
  emitsUnlocked false t = true ∧
  (if lockingAccessor c
   then Lock ∈ t ∧ accessesLocked false t = true
   else True) ∧
  (if plainAccessor c
   then lockFree t = true ∧ accessesLocked false t = false ∧ signals t = []
   else True).
Proof.
  cbn zeta.
  destruct c; cbn [perform lockingAccessor plainAccessor];
    run_members; split_tests;
    repeat split; try reflexivity; try (apply list_elem_of_here).
Qed.

(** ** Further properties of the account manager *)

Lemma trace_bind {A B} (c : M A) (k : A -> M B) (w : World) :
  trace (bind c k) w = trace c w ++ trace (k (result c w)) (after c w).
Proof.
  unfold after, result, trace, bind.
  destruct (c w) as [[a w1] t1]; cbn.
  destruct (k a w1) as [[b w2] t2]; reflexivity.
Qed.

Lemma trace_performAll_cons (c : Call) (cs : list Call) (w : World) :
  trace (performAll (c :: cs)) w =
    trace (perform c) w ++ trace (performAll cs) (after (perform c) w).
Proof. cbn [performAll]. apply trace_bind. Qed.

(** *** Members keep their value until they are assigned *)

Lemma perform_frame (m : Member) (c : Call) (w : World) :
  assigns m c = false ->
  get_member m (self (after (perform c) w)) = get_member m (self w).
Proof.
  intros Hc.
  destruct m; destruct c; try discriminate Hc; cbn [perform];
    run_members; split_tests; reflexivity.
Qed.

(** X1: a data member keeps its value over any sequence of calls none of
    which assigns it, and the getter of the member (for the port: [port()]
    with its default) returns after the sequence what it returned before. *)
Theorem member_kept_until_assigned (m : Member) (cs : list Call) (w : World) :
  Forall (fun c => assigns m c = false) cs ->
  let w' := after (performAll cs) w in
  get_member m (self w') = get_member m (self w) ∧
  match m with
  | M_jid => result jid w' = result jid w
  | M_password => result password w' = result password w
  | M_host => result host w' = result host w
  | M_port => result port w' = result port w
  | M_hasNewCredentials => result hasNewCredentials w' = result hasNewCredentials w
  | _ => True
  end.
Proof.
  intros Hcs. cbn zeta.
  assert (Hkept : get_member m (self (after (performAll cs) w)) = get_member m (self w)).
  { revert w. induction Hcs as [|c cs Hc _ IH]; intros w.
    - reflexivity.
    - rewrite after_performAll_cons, IH. now apply perform_frame. }
  split; [exact Hkept|].
  destruct m; try exact I; cbn [get_member] in Hkept;
    unfold result; rewrite ?port_run; cbn [fst];
    first [exact Hkept | now rewrite Hkept].
Qed.

(** *** The port that is reported and the port that is stored *)

(** X2: [port()] never returns a negative number.  After [setPort(p)] with a
    negative [p] other than the sentinel, [port()] returns the default port,
    yet [storeCustomConnectionSettings] persists [p], and a new object that
    loads from this store holds [p] again and still reports the default. *)
Theorem port_never_negative (p : Z) (w : World) :
  p < 0 -> p ≠ PORT_UNSET ->
  (∀ w0, 0 <= result port w0) ∧
  result port (after (setPort p) w) = PORT_DEFAULT ∧
  let w' := after storeCustomConnectionSettings (after (setPort p) w) in
  m_settings w' !! KAIDAN_SETTINGS_AUTH_PORT = Some (QVInt p) ∧
  ∀ customEnabled hasNew r,
    let reloaded :=
      after loadCredentials (mkWorld (constructed customEnabled hasNew) (m_settings w') r) in
    m_port (self reloaded) = p ∧ result port reloaded = PORT_DEFAULT.
Proof.
  intros Hneg Hsentinel.
  assert (Hltb : (p <? 0) = true) by now apply Z.ltb_lt.
  assert (Heqb : (p =? PORT_UNSET) = false) by now apply Z.eqb_neq.
  split; [|split].
  - intros w0. run_members.
    destruct (m_port (self w0) <? 0) eqn:Hp; [discriminate|].
    now apply Z.ltb_ge.
  - run_members. now rewrite Hltb.
  - cbn zeta.
    assert (Hstored :
      m_settings (after storeCustomConnectionSettings (after (setPort p) w))
        !! KAIDAN_SETTINGS_AUTH_PORT = Some (QVInt p)).
    { run_members. unfold withConnectionSettings. cbn. rewrite Heqb.
      apply lookup_insert_eq. }
    set (s' := m_settings (after storeCustomConnectionSettings (after (setPort p) w)))
      in *.
    split; [exact Hstored|].
    intros customEnabled hasNew r.
    assert (Hloaded :
      m_port (self (after loadCredentials
        (mkWorld (constructed customEnabled hasNew) s' r))) = p).
    { unfold after. rewrite loadCredentials_run. cbn.
      unfold storedPort. now rewrite Hstored. }
    split; [exact Hloaded|].
    unfold result. rewrite port_run. cbn [fst]. now rewrite Hloaded, Hltb.
Qed.

(** *** Entered credentials and [loadCredentials] *)

(** X3: once [setJid] and [setPassword] were called with non-empty values,
    [loadCredentials] returns true without reading the settings store,
    without a signal and without a change: the entered address and password
    stay, and they stay marked as new. *)
Theorem entered_credentials_survive_load (j p : QString) (w : World) :
  j ≠ "" -> p ≠ "" ->
  let w1 := after (setPassword p) (after (setJid j) w) in
  result loadCredentials w1 = true ∧
  after loadCredentials w1 = w1 ∧
  signals (trace loadCredentials w1) = [] ∧
  trace loadCredentials w1 = [Lock; Read M_jid; Unlock; Lock; Read M_password; Unlock] ∧
  result jid (after loadCredentials w1) = j ∧
  result password (after loadCredentials w1) = p ∧
  result hasNewCredentials (after loadCredentials w1) = true.
Proof.
  intros Hj Hp. apply isEmpty_false in Hj, Hp.
  cbn zeta. run_members. unfold sufficient, sufficientTrace. cbn.
  rewrite Hj, Hp. cbn. now repeat split.
Qed.

(** X4: [loadCredentials] returns whether the credentials are sufficient
    afterwards.  After a call that returned true, a second call changes
    nothing and emits nothing.  After a call that returned false, a second
    call loads again: it returns false again, emits the four change signals
    and [newCredentialsNeeded] again, and draws a new resource suffix. *)
Theorem loadCredentials_again (w : World) :
  let w1 := after loadCredentials w in
  result loadCredentials w = result hasEnoughCredentialsForLogin w1 ∧
  if result loadCredentials w then
    result loadCredentials w1 = true ∧
    after loadCredentials w1 = w1 ∧
    signals (trace loadCredentials w1) = []
  else
    result loadCredentials w1 = false ∧
    signals (trace loadCredentials w1) =
      [jidChanged; passwordChanged; hostChanged; portChanged; newCredentialsNeeded] ∧
    m_settings (after loadCredentials w1) = m_settings w ∧
    m_jidResource (self (after loadCredentials w1)) =
      storedPrefix (m_settings w) +:+ "." +:+
        (generateStanzaHash numberOfRandomSuffixCharacters (rng w1)).1 ∧
    rng w1 = (generateStanzaHash numberOfRandomSuffixCharacters (rng w)).2.
Proof.
  cbn zeta. unfold result, after, trace.
  rewrite (loadCredentials_run w).
  destruct (sufficient (self w)) eqn:Hw; cbn [fst snd].
  - rewrite hasEnoughCredentialsForLogin_run, loadCredentials_run, Hw. cbn [fst snd].
    repeat split; trivial. unfold sufficientTrace. now destruct (isEmpty _).
  - rewrite hasEnoughCredentialsForLogin_run. cbn [fst snd].
    split; [reflexivity|].
    destruct (sufficient (self (loaded w))) eqn:Hl.
    + rewrite loadCredentials_run, Hl. cbn [fst snd].
      repeat split; trivial. unfold sufficientTrace. now destruct (isEmpty _).
    + rewrite loadCredentials_run, Hl. cbn [fst snd].
      assert (Hagain : sufficient (self (loaded (loaded w))) = false) by exact Hl.
      rewrite Hagain.
      unfold sufficientTrace, loadingTrace.
      destruct (isEmpty (m_jid (self (loaded w))));
        destruct (isEmpty (m_jid (self (loaded (loaded w)))));
        now repeat split.
Qed.

(** X5: after [deleteCredentials], [loadCredentials] finds nothing to load:
    it returns false and ends by emitting [newCredentialsNeeded]; address
    and host stay empty, the port stays unset, the resource prefix becomes
    the default prefix, and the flag for new credentials, which
    [deleteCredentials] left true, is false. *)
Theorem deleteCredentials_then_load (w : World) :
  let w1 := after deleteCredentials w in
  let w2 := after loadCredentials w1 in
  result loadCredentials w1 = false ∧
  signals (trace loadCredentials w1) =
    [jidChanged; passwordChanged; hostChanged; portChanged; newCredentialsNeeded] ∧
  m_jid (self w2) = "" ∧
  m_password (self w2) = fromUtf8 (fromBase64 (toUtf8 "")) ∧
  m_host (self w2) = "" ∧
  m_port (self w2) = PORT_UNSET ∧
  m_jidResourcePrefix (self w2) = KAIDAN_JID_RESOURCE_DEFAULT_PREFIX ∧
  m_hasNewCredentials (self w1) = true ∧
  m_hasNewCredentials (self w2) = false ∧
  m_settings w2 = m_settings w1.
Proof.
  cbn zeta. unfold result, after, trace.
  rewrite deleteCredentials_run. cbn [fst snd].
  rewrite loadCredentials_run. cbn [fst snd self m_jid sufficient isEmpty orb negb].
  remember (foldl (fun m key => QSettings_remove key m) (m_settings w) credentialKeys)
    as s eqn:Hs.
  assert (Hgone : ∀ key, key ∈ credentialKeys -> s !! key = None).
  { intros key Hkey. rewrite Hs, foldl_remove_lookup.
    now rewrite removed_member. }
  clear Hs.
  assert (Hjid : storedJid s = "").
  { unfold storedJid. rewrite Hgone; [reflexivity|]. unfold credentialKeys. set_solver. }
  assert (Hpassword : storedPassword s = fromUtf8 (fromBase64 (toUtf8 ""))).
  { unfold storedPassword. rewrite Hgone; [reflexivity|]. unfold credentialKeys. set_solver. }
  assert (Hprefix : storedPrefix s = KAIDAN_JID_RESOURCE_DEFAULT_PREFIX).
  { unfold storedPrefix. rewrite Hgone; [reflexivity|]. unfold credentialKeys. set_solver. }
  assert (Hhost : storedHost s = "").
  { unfold storedHost. rewrite Hgone; [reflexivity|]. unfold credentialKeys. set_solver. }
  assert (Hport : storedPort s = PORT_UNSET).
  { unfold storedPort. rewrite Hgone; [reflexivity|]. unfold credentialKeys. set_solver. }
  unfold loaded, sufficient, sufficientTrace, loadingTrace.
  cbn -[storedJid storedPassword storedPrefix storedHost storedPort].
  rewrite Hjid, Hprefix, Hhost, Hport, Hpassword. cbn.
  now repeat split.
Qed.

(** *** Storing and loading *)

Lemma stored_keys_distinct :
  NoDup [ KAIDAN_SETTINGS_AUTH_JID; KAIDAN_SETTINGS_AUTH_PASSWD;
          KAIDAN_SETTINGS_AUTH_HOST; KAIDAN_SETTINGS_AUTH_PORT ] ->
  KAIDAN_SETTINGS_AUTH_JID ≠ KAIDAN_SETTINGS_AUTH_PASSWD ∧
  KAIDAN_SETTINGS_AUTH_JID ≠ KAIDAN_SETTINGS_AUTH_HOST ∧
  KAIDAN_SETTINGS_AUTH_JID ≠ KAIDAN_SETTINGS_AUTH_PORT ∧
  KAIDAN_SETTINGS_AUTH_PASSWD ≠ KAIDAN_SETTINGS_AUTH_HOST ∧
  KAIDAN_SETTINGS_AUTH_PASSWD ≠ KAIDAN_SETTINGS_AUTH_PORT ∧
  KAIDAN_SETTINGS_AUTH_HOST ≠ KAIDAN_SETTINGS_AUTH_PORT.
Proof.
  intros Hkeys.
  apply NoDup_cons in Hkeys as [Hjid Hkeys].
  apply NoDup_cons in Hkeys as [Hpasswd Hkeys].
  apply NoDup_cons in Hkeys as [Hhost _].
  repeat split; set_solver.
Qed.

(** X6: with the four settings keys distinct, a non-empty address and a
    non-empty password that survives the encoding, [storeCredentials]
    followed by [loadCredentials] on a new object brings back address and
    password.  [storeCredentials] itself changes no member and emits
    nothing.  A host or port that is set comes back too; for an empty host
    or an unset port the new object gets whatever the store held before,
    since nothing is written for them. *)
Theorem storeCredentials_then_load
    (w : World) (customEnabled hasNew : bool) (r : Rng) :
  NoDup [ KAIDAN_SETTINGS_AUTH_JID; KAIDAN_SETTINGS_AUTH_PASSWD;
          KAIDAN_SETTINGS_AUTH_HOST; KAIDAN_SETTINGS_AUTH_PORT ] ->
  m_jid (self w) ≠ "" ->
  m_password (self w) ≠ "" ->
  fromUtf8 (fromBase64 (toUtf8 (fromUtf8 (toBase64 (toUtf8 (m_password (self w)))))))
    = m_password (self w) ->
  let saved := after storeCredentials w in
  let started := mkWorld (constructed customEnabled hasNew) (m_settings saved) r in
  let reloaded := after loadCredentials started in
  self saved = self w ∧
  signals (trace storeCredentials w) = [] ∧
  result loadCredentials started = true ∧
  m_jid (self reloaded) = m_jid (self w) ∧
  m_password (self reloaded) = m_password (self w) ∧
  m_host (self reloaded) =
    (if isEmpty (m_host (self w)) then storedHost (m_settings w) else m_host (self w)) ∧
  m_port (self reloaded) =
    (if m_port (self w) =? PORT_UNSET then storedPort (m_settings w)
     else m_port (self w)) ∧
  m_hasNewCredentials (self reloaded) = false.
Proof.
  intros Hkeys Hjid Hpassword Hcodec.
  apply stored_keys_distinct in Hkeys as (? & ? & ? & ? & ? & ?).
  apply isEmpty_false in Hjid, Hpassword.
  cbn zeta. unfold result, after, trace.
  rewrite storeCredentials_run. cbn [fst snd self m_settings].
  remember (withConnectionSettings _ _) as s eqn:Hs.
  assert (HsJid : storedJid s = m_jid (self w)).
  { rewrite Hs. unfold storedJid, withConnectionSettings.
    destruct (isEmpty (m_host (self w))), (m_port (self w) =? PORT_UNSET);
      now simplify_map_eq. }
  assert (HsPassword : storedPassword s = m_password (self w)).
  { rewrite Hs. unfold storedPassword, withConnectionSettings.
    destruct (isEmpty (m_host (self w))), (m_port (self w) =? PORT_UNSET);
      now simplify_map_eq. }
  assert (HsHost : storedHost s =
    if isEmpty (m_host (self w)) then storedHost (m_settings w) else m_host (self w)).
  { rewrite Hs. unfold storedHost, withConnectionSettings.
    destruct (isEmpty (m_host (self w))), (m_port (self w) =? PORT_UNSET);
      now simplify_map_eq. }
  assert (HsPort : storedPort s =
    if m_port (self w) =? PORT_UNSET then storedPort (m_settings w) else m_port (self w)).
  { rewrite Hs. unfold storedPort, withConnectionSettings.
    destruct (isEmpty (m_host (self w))), (m_port (self w) =? PORT_UNSET);
      now simplify_map_eq. }
  clear Hs.
  rewrite loadCredentials_run.
  cbn [self constructed m_jid sufficient isEmpty orb negb fst snd].
  unfold loaded, sufficient.
  cbn -[storedJid storedPassword storedPrefix storedHost storedPort].
  rewrite HsJid, HsPassword, HsHost, HsPort, Hjid, Hpassword.
  unfold connectionSettingsTrace.
  destruct (isEmpty (m_host (self w))), (m_port (self w) =? PORT_UNSET);
    now repeat split.
Qed.

(** X7: [storeCustomConnectionSettings] only ever writes.  Once a host and a
    port were stored, [resetHost], [resetPort] and another
    [storeCustomConnectionSettings] leave the settings store as it was: the
    getters report no host and the default port, but the store still holds
    the old host and port, and a new object loads them again. *)
Theorem reset_is_not_persisted
    (h : QString) (p : Z) (w : World) (customEnabled hasNew : bool) (r : Rng) :
  h ≠ "" -> p ≠ PORT_UNSET ->
  KAIDAN_SETTINGS_AUTH_HOST ≠ KAIDAN_SETTINGS_AUTH_PORT ->
  let w1 := after storeCustomConnectionSettings (after (setPort p) (after (setHost h) w)) in
  let w2 := after resetPort (after resetHost w1) in
  let w3 := after storeCustomConnectionSettings w2 in
  let reloaded :=
    after loadCredentials (mkWorld (constructed customEnabled hasNew) (m_settings w3) r) in
  result host w3 = "" ∧
  result port w3 = PORT_DEFAULT ∧
  writtenKeys (trace storeCustomConnectionSettings w2) = [] ∧
  m_settings w3 = m_settings w1 ∧
  m_settings w3 !! KAIDAN_SETTINGS_AUTH_HOST = Some (QVString h) ∧
  m_settings w3 !! KAIDAN_SETTINGS_AUTH_PORT = Some (QVInt p) ∧
  m_host (self reloaded) = h ∧
  m_port (self reloaded) = p.
Proof.
  intros Hh Hp Hkeys.
  apply isEmpty_false in Hh. apply Z.eqb_neq in Hp.
  cbn zeta. unfold result, after, trace.
  rewrite !storeCustomConnectionSettings_run, port_run, loadCredentials_run.
  unfold withConnectionSettings, connectionSettingsTrace, loaded, storedHost, storedPort.
  cbn. rewrite ?Hh, ?Hp. cbn.
  repeat split; now simplify_map_eq.
Qed.

(** *** Deleting settings *)

Lemma foldl_remove_twice (keys : list string) (m : gmap string QVariant) :
  foldl (fun m key => QSettings_remove key m)
    (foldl (fun m key => QSettings_remove key m) m keys) keys =
  foldl (fun m key => QSettings_remove key m) m keys.
Proof.
  apply map_eq. intros k. rewrite !foldl_remove_lookup.
  now destruct (existsb _ keys).
Qed.

Lemma prefix_app (p s : string) : String.prefix p (p +:+ s) = true.
Proof.
  induction p as [|a p IH]; [now destruct s|].
  change (String.prefix (String a p) (String a (p +:+ s)) = true).
  cbn [String.prefix]. now destruct (ascii_dec a a).
Qed.

Lemma prefix_app_app (p q s : string) : String.prefix (p +:+ q) (p +:+ q +:+ s) = true.
Proof.
  induction p as [|a p IH].
  { change (String.prefix q (q +:+ s) = true). apply prefix_app. }
  change (String.prefix (String a (p +:+ q)) (String a (p +:+ q +:+ s)) = true).
  cbn [String.prefix]. now destruct (ascii_dec a a).
Qed.

Lemma removes_below (key entry : string) :
  removes key (normalizedKey key +:+ "/" +:+ entry) = true.
Proof. unfold removes. now rewrite prefix_app_app, orb_true_r. Qed.

(** X8: [deleteSettingsInSettingsFile] removes the keys it is given together
    with their sub-settings, and nothing else: afterwards a setting is absent
    when one of the given keys removes it, and holds what it held otherwise;
    each given key itself is absent.  The object and the generator are
    untouched and the only steps are the removals, in list order.  So
    [deleteSettings] removes its three keys with everything below them (every
    entry below the key of the muted notifications, for one), touches no
    member and emits nothing, and [deleteCredentials] keeps every setting
    that none of its seven keys removes.  Deleting a second time changes
    nothing. *)
Theorem deleteSettings_removes_its_keys (keys : list string) (key : string) (w : World) :
  let removed :=
    [ KAIDAN_SETTINGS_AUTH_ONLINE; KAIDAN_SETTINGS_NOTIFICATIONS_MUTED;
      KAIDAN_SETTINGS_FAVORITE_EMOJIS ] in
  (m_settings (after (deleteSettingsInSettingsFile keys) w) !! key =
     (if existsb (fun given => removes given key) keys then None
      else m_settings w !! key) ∧
   Forall
     (fun given => m_settings (after (deleteSettingsInSettingsFile keys) w) !! given = None)
     keys ∧
   self (after (deleteSettingsInSettingsFile keys) w) = self w ∧
   rng (after (deleteSettingsInSettingsFile keys) w) = rng w ∧
   trace (deleteSettingsInSettingsFile keys) w = SettingsRemove <$> keys ∧
   after (deleteSettingsInSettingsFile keys)
     (after (deleteSettingsInSettingsFile keys) w) =
     after (deleteSettingsInSettingsFile keys) w) ∧
  (m_settings (after deleteSettings w) !! key =
     (if existsb (fun given => removes given key) removed then None
      else m_settings w !! key) ∧
   (∀ entry,
      m_settings (after deleteSettings w)
        !! (normalizedKey KAIDAN_SETTINGS_NOTIFICATIONS_MUTED +:+ "/" +:+ entry) = None) ∧
   self (after deleteSettings w) = self w ∧
   signals (trace deleteSettings w) = [] ∧
   after deleteSettings (after deleteSettings w) = after deleteSettings w) ∧
  m_settings (after deleteCredentials w) !! key =
    (if existsb (fun given => removes given key) credentialKeys then None
     else m_settings w !! key).
Proof.
  cbn zeta. unfold result, after, trace.
  rewrite !deleteSettingsInSettingsFile_run, !deleteSettings_run, deleteCredentials_run.
  cbn [fst snd self m_settings rng].
  rewrite !foldl_remove_lookup, !foldl_remove_twice.
  split; [|split].
  - repeat split; trivial.
    apply Forall_forall. intros given Hgiven.
    rewrite foldl_remove_lookup. now rewrite removed_member.
  - repeat split; trivial.
    intros entry. rewrite foldl_remove_lookup.
    cbn [existsb]. now rewrite removes_below, orb_true_r.
  - reflexivity.
Qed.

(** *** The custom-connection switch over all calls *)

Lemma readMembers_app (t1 t2 : list Event) :
  readMembers (t1 ++ t2) = readMembers t1 ++ readMembers t2.
Proof.
  induction t1 as [|e t1 IH]; [reflexivity|].
  destruct e; cbn; now rewrite ?IH.
Qed.

Lemma writtenKeys_app (t1 t2 : list Event) :
  writtenKeys (t1 ++ t2) = writtenKeys t1 ++ writtenKeys t2.
Proof.
  induction t1 as [|e t1 IH]; [reflexivity|].
  destruct e; cbn; now rewrite ?IH.
Qed.

Lemma perform_never_reads_switch (c : Call) (w : World) :
  bool_decide (M_customConnectionSettingsEnabled ∈ readMembers (trace (perform c) w))
    = false.
Proof.
  destruct c; cbn [perform]; run_members; split_tests; reflexivity.
Qed.

Lemma perform_switch_key (c : Call) (w : World) :
  KAIDAN_SETTINGS_AUTH_USE_CUSTOM ∉
    [ KAIDAN_SETTINGS_AUTH_JID; KAIDAN_SETTINGS_AUTH_PASSWD;
      KAIDAN_SETTINGS_AUTH_HOST; KAIDAN_SETTINGS_AUTH_PORT ] ->
  m_settings (after (perform c) w) !! KAIDAN_SETTINGS_AUTH_USE_CUSTOM =
    m_settings w !! KAIDAN_SETTINGS_AUTH_USE_CUSTOM ∨
  m_settings (after (perform c) w) !! KAIDAN_SETTINGS_AUTH_USE_CUSTOM = None.
Proof.
  intros Hkey. rewrite !not_elem_of_cons in Hkey.
  destruct Hkey as (? & ? & ? & ? & _).
  destruct c; cbn [perform];
    try (left; run_members; split_tests; reflexivity).
  - (* storeJid *)
    left. run_members. now simplify_map_eq.
  - (* storePassword *)
    left. run_members. now simplify_map_eq.
  - (* storeCustomConnectionSettings *)
    left. run_members. unfold withConnectionSettings.
    destruct (isEmpty _), (_ =? _); now simplify_map_eq.
  - (* storeCredentials *)
    left. run_members. unfold withConnectionSettings.
    destruct (isEmpty _), (_ =? _); now simplify_map_eq.
  - (* deleteCredentials *)
    right. unfold after. rewrite deleteCredentials_run. cbn [fst snd m_settings].
    rewrite foldl_remove_lookup, removed_member; [reflexivity|].
    unfold credentialKeys. set_solver.
  - (* deleteSettings *)
    unfold after. rewrite deleteSettings_run. cbn [fst snd m_settings].
    rewrite foldl_remove_lookup. destruct (existsb _ _); [now right|now left].
Qed.

(** X9: no member function writes the key of the custom-connection switch
    and none reads the member [m_customConnectionSettingsEnabled].  With the
    key different from the four keys that are written, after any sequence
    of calls [customConnectionSettingsEnabled()] returns what it returned
    before or false; in particular the class cannot turn the switch on. *)
Theorem switch_never_turned_on (cs : list Call) (w : World) :
  KAIDAN_SETTINGS_AUTH_USE_CUSTOM ∉
    [ KAIDAN_SETTINGS_AUTH_JID; KAIDAN_SETTINGS_AUTH_PASSWD;
      KAIDAN_SETTINGS_AUTH_HOST; KAIDAN_SETTINGS_AUTH_PORT ] ->
  let w' := after (performAll cs) w in
  (result customConnectionSettingsEnabled w' = result customConnectionSettingsEnabled w ∨
   result customConnectionSettingsEnabled w' = false) ∧
  M_customConnectionSettingsEnabled ∉ readMembers (trace (performAll cs) w).
Proof.
  intros Hkey. cbn zeta. split.
  - assert (Hstore :
      m_settings (after (performAll cs) w) !! KAIDAN_SETTINGS_AUTH_USE_CUSTOM =
        m_settings w !! KAIDAN_SETTINGS_AUTH_USE_CUSTOM ∨
      m_settings (after (performAll cs) w) !! KAIDAN_SETTINGS_AUTH_USE_CUSTOM = None).
    { revert w. induction cs as [|c cs IH]; intros w.
      - now left.
      - rewrite after_performAll_cons.
        destruct (IH (after (perform c) w)) as [Hsame|Hgone]; [|now right].
        rewrite Hsame. now apply perform_switch_key. }
    change (QVariant_toBool (default QVInvalid
              (m_settings (after (performAll cs) w) !! KAIDAN_SETTINGS_AUTH_USE_CUSTOM)) =
            QVariant_toBool (default QVInvalid
              (m_settings w !! KAIDAN_SETTINGS_AUTH_USE_CUSTOM)) ∨
            QVariant_toBool (default QVInvalid
              (m_settings (after (performAll cs) w) !! KAIDAN_SETTINGS_AUTH_USE_CUSTOM)) =
            false).
    destruct Hstore as [->| ->]; [now left|now right].
  - revert w. induction cs as [|c cs IH]; intros w.
    + apply not_elem_of_nil.
    + rewrite trace_performAll_cons, readMembers_app, elem_of_app.
      intros [Hin|Hin].
      * apply (bool_decide_eq_true_2 _) in Hin.
        now rewrite perform_never_reads_switch in Hin.
      * now apply IH in Hin.
Qed.

(** *** The shape of the resource *)

Lemma perform_resourceTagged (c : Call) (w : World) :
  resourceTagged (self w) -> resourceTagged (self (after (perform c) w)).
Proof.
  intros Hw.
  destruct (changesPrefix c) eqn:Hc.
  - destruct c; try discriminate Hc; cbn [perform]; unfold resourceTagged.
    + intros _. eexists. reflexivity.
    + run_members. destruct (sufficient (self w)); [exact Hw|].
      intros _. eexists. reflexivity.
    + run_members. intros Hne. now contradict Hne.
  - unfold resourceTagged.
    destruct (perform_keeps_resource c w Hc) as [-> ->]. exact Hw.
Qed.

Lemma performAll_resourceTagged (cs : list Call) (w : World) :
  resourceTagged (self w) -> resourceTagged (self (after (performAll cs) w)).
Proof.
  revert w. induction cs as [|c cs IH]; intros w Hw.
  - exact Hw.
  - rewrite after_performAll_cons. now apply IH, perform_resourceTagged.
Qed.

(** X10: from construction on, whatever was called, [jidResource()] returns
    the current resource prefix, a dot and a suffix. *)
Theorem jidResource_starts_with_prefix
    (customEnabled hasNew : bool) (s : gmap string QVariant) (r : Rng)
    (calls : list Call) :
  let w := after (performAll calls) (mkWorld (constructed customEnabled hasNew) s r) in
  ∃ suffix, result jidResource w = m_jidResourcePrefix (self w) +:+ "." +:+ suffix.
Proof.
  cbn zeta.
  assert (Htagged : resourceTagged
    (self (after (performAll calls) (mkWorld (constructed customEnabled hasNew) s r)))).
  { apply performAll_resourceTagged. intros Hne. now contradict Hne. }
  rewrite jidResource_result.
  destruct (isEmpty (m_jidResourcePrefix _)) eqn:He.
  - apply isEmpty_true in He. rewrite He. eexists. reflexivity.
  - apply isEmpty_false in He. exact (Htagged He).
Qed.

(** X11: [setJidResourcePrefix] draws a suffix on every call, also when it is
    given the prefix that is already set, so the cached resource changes
    with each call.  [jidResource()] changes neither a member nor the
    settings store, and it draws from the generator exactly when the prefix
    is empty.  After [setJidResourcePrefix("")] the resource that was cached
    is not the one [jidResource()] returns: it returns a dot and the next
    draw. *)
Theorem setJidResourcePrefix_redraws (P : QString) (w : World) :
  let first := generateStanzaHash numberOfRandomSuffixCharacters (rng w) in
  let second := generateStanzaHash numberOfRandomSuffixCharacters first.2 in
  let w1 := after (setJidResourcePrefix P) w in
  let w2 := after (setJidResourcePrefix P) w1 in
  (m_jidResource (self w1) = P +:+ "." +:+ first.1 ∧ rng w1 = first.2) ∧
  (m_jidResource (self w2) = P +:+ "." +:+ second.1 ∧ rng w2 = second.2) ∧
  (self (after jidResource w) = self w ∧
   m_settings (after jidResource w) = m_settings w ∧
   rng (after jidResource w) =
     if isEmpty (m_jidResourcePrefix (self w)) then first.2 else rng w) ∧
  (m_jidResource (self (after (setJidResourcePrefix "") w)) = "." +:+ first.1 ∧
   result jidResource (after (setJidResourcePrefix "") w) = "." +:+ second.1).
Proof.
  cbn zeta. split; [now split|]. split; [now split|]. split.
  - unfold after. rewrite jidResource_run.
    destruct (isEmpty (m_jidResourcePrefix (self w))); now repeat split.
  - split; [reflexivity|]. now rewrite jidResource_result.
Qed.

End Properties.


(** ** Properties of the login by URI *)

Section LoginByUriProperties.
Import LoginByUri.

Lemma stripPrefix_Some (p s r : string) :
  stripPrefix p s = Some r -> s = p +:+ r.
Proof.
  revert s. induction p as [|a p IH]; intros s Hs; cbn in Hs.
  - now injection Hs as ->.
  - destruct s as [|b s]; [discriminate|].
    destruct (Ascii.eqb a b) eqn:Hab; [|discriminate].
    apply Ascii.eqb_eq in Hab as ->.
    change (String b s = String b (p +:+ r)). f_equal. now apply IH.
Qed.

Lemma splitAt_app (c : ascii) (s : string) :
  s = (splitAt c s).1 +:+
      match (splitAt c s).2 with
      | None => ""
      | Some rest => String c rest
      end.
Proof.
  induction s as [|a s IH]; cbn [splitAt].
  - reflexivity.
  - destruct (Ascii.eqb a c) eqn:Hac; cbn [fst snd].
    + now apply Ascii.eqb_eq in Hac as ->.
    + change (String a s = String a ((splitAt c s).1 +:+
                match (splitAt c s).2 with
                | None => ""
                | Some rest => String c rest
                end)).
      f_equal. exact IH.
Qed.

Lemma classifyQuery_shape (query : option string) :
  classifyQuery query ≠ OtherQuery ->
  let tail := match query with None => "" | Some q => String "?" q end in
  tail ∈ [""; "?"; "?login"; "?login;"; "?login;password"] ∨
  ∃ value, tail = "?login;password=" +:+ value.
Proof.
  intros Hq. cbn zeta. destruct query as [q|]; [|left; set_solver].
  unfold classifyQuery in Hq.
  destruct (stripPrefix "login;password=" q) as [value|] eqn:Hvalue.
  - right. exists value. apply stripPrefix_Some in Hvalue as ->. reflexivity.
  - left. destruct (bool_decide _) eqn:Hin in Hq; [|congruence].
    apply bool_decide_eq_true_1 in Hin.
    repeat (apply elem_of_cons in Hin as [->|Hin]; [set_solver|]).
    now apply elem_of_nil in Hin.
Qed.

Lemma splitAt_first_clean (c : ascii) (s : string) :
  contains c (splitAt c s).1 = false.
Proof.
  induction s as [|a s IH]; cbn [splitAt]; [reflexivity|].
  destruct (Ascii.eqb a c) eqn:Hac; cbn [fst contains]; [reflexivity|].
  now rewrite Hac, IH.
Qed.

Lemma splitAt_clean (c : ascii) (a : string) :
  contains c a = false -> splitAt c a = (a, None).
Proof.
  induction a as [|x a IH]; cbn [contains splitAt]; [reflexivity|].
  intros Hclean. apply orb_false_iff in Hclean as [Hx Ha].
  now rewrite Hx, (IH Ha).
Qed.

Lemma splitAt_clean_cut (c : ascii) (a q : string) :
  contains c a = false -> splitAt c (a +:+ String c q) = (a, Some q).
Proof.
  induction a as [|x a IH]; intros Hclean.
  - change (splitAt c (String c q) = ("", Some q)).
    cbn [splitAt]. now rewrite Ascii.eqb_refl.
  - cbn [contains] in Hclean. apply orb_false_iff in Hclean as [Hx Ha].
    change (splitAt c (String x (a +:+ String c q)) = (String x a, Some q)).
    cbn [splitAt]. now rewrite Hx, (IH Ha).
Qed.

Lemma stripPrefix_app (p r : string) : stripPrefix p (p +:+ r) = Some r.
Proof.
  induction p as [|a p IH]; [reflexivity|].
  change (stripPrefix (String a p) (String a (p +:+ r)) = Some r).
  cbn [stripPrefix]. now rewrite Ascii.eqb_refl.
Qed.

Lemma append_empty (s : string) : s +:+ "" = s.
Proof.
  induction s as [|a s IH]; [reflexivity|].
  change (String a (s +:+ "") = String a s). now rewrite IH.
Qed.

Lemma logInByUri_shape (uri : QString) (s : ConnectionState) :
  state (logInByUri uri s).1 ≠ InvalidLoginUri -> loginShape uri.
Proof.
  unfold logInByUri. intros Hstate.
  destruct (stripPrefix "xmpp:" uri) as [rest|] eqn:Hrest; [|now contradict Hstate].
  apply stripPrefix_Some in Hrest.
  destruct (isEmpty (splitAt "?" rest).1) eqn:Haddr; [now contradict Hstate|].
  exists (splitAt "?" rest).1,
    (match (splitAt "?" rest).2 with None => "" | Some q => String "?" q end).
  split; [|split; [|split]].
  - rewrite Hrest at 1. f_equal. apply splitAt_app.
  - now apply isEmpty_false.
  - apply splitAt_first_clean.
  - apply classifyQuery_shape. intros Hq. now rewrite Hq in Hstate.
Qed.

Lemma logInByUri_of_shape (uri : QString) (s : ConnectionState) :
  loginShape uri -> state (logInByUri uri s).1 ≠ InvalidLoginUri.
Proof.
  intros (addr & tail & -> & Haddr & Hclean & Htail).
  apply isEmpty_false in Haddr.
  unfold logInByUri. rewrite stripPrefix_app.
  destruct Htail as [Htail|[value ->]].
  - repeat (apply elem_of_cons in Htail as [->|Htail];
            [first
               [ rewrite append_empty, (splitAt_clean _ _ Hclean)
               | rewrite (splitAt_clean_cut _ _ _ Hclean) ];
             cbn [fst snd]; rewrite Haddr; discriminate|]).
    now apply elem_of_nil in Htail.
  - change ("?login;password=" +:+ value)
      with (String "?" ("login;password=" +:+ value)).
    rewrite (splitAt_clean_cut _ _ _ Hclean). cbn [fst snd]. rewrite Haddr.
    unfold classifyQuery. rewrite stripPrefix_app.
    destruct (isEmpty value); discriminate.
Qed.

(** C5: [logInByUri] answers [Connecting] for
    "xmpp:alice@example.org?login;password=secret", with that address and
    password and with the login transition taken; [PasswordNeeded] for
    "xmpp:alice@example.org?login;password=", with the address only;
    [InvalidLoginUri] for "not-a-uri", for a URI with another query such as
    "xmpp:alice@example.org?join", and in general exactly for the strings
    that are not of the login shape.  Unless the answer is [Connecting], no
    login is attempted and the connection state stays as it was. *)
Theorem logInByUri_results (uri : QString) (s : ConnectionState) :
  logInByUri "xmpp:alice@example.org?login;password=secret" s =
    (mkOutcome Connecting (Some "alice@example.org") (Some "secret") true, logIn s) ∧
  logIn StateDisconnected = StateConnecting ∧
  logInByUri "xmpp:alice@example.org?login;password=" s =
    (mkOutcome PasswordNeeded (Some "alice@example.org") None false, s) ∧
  logInByUri "not-a-uri" s = (mkOutcome InvalidLoginUri None None false, s) ∧
  logInByUri "xmpp:alice@example.org?join" s =
    (mkOutcome InvalidLoginUri None None false, s) ∧
  (state (logInByUri uri s).1 = InvalidLoginUri <-> ¬ loginShape uri) ∧
  match state (logInByUri uri s).1 with
  | Connecting =>
      loginAttempted (logInByUri uri s).1 = true ∧ (logInByUri uri s).2 = logIn s
  | PasswordNeeded | InvalidLoginUri =>
      loginAttempted (logInByUri uri s).1 = false ∧
      secret (logInByUri uri s).1 = None ∧
      (logInByUri uri s).2 = s
  end.
Proof.
  split; [reflexivity|]. split; [reflexivity|].
  split; [reflexivity|]. split; [reflexivity|].
  split; [reflexivity|]. split.
  - split.
    + intros Hinvalid Hshape. now apply (logInByUri_of_shape uri s) in Hshape.
    + intros Hshape.
      destruct (decide (state (logInByUri uri s).1 = InvalidLoginUri)) as [Hi|Hv];
        [exact Hi|].
      now apply logInByUri_shape in Hv.
  - unfold logInByUri.
    destruct (stripPrefix "xmpp:" uri) as [rest|]; [|now repeat split].
    destruct (isEmpty (splitAt "?" rest).1); [now repeat split|].
    destruct (classifyQuery (splitAt "?" rest).2); now repeat split.
Qed.

(** The strings that begin with the scheme are not all of the login shape. *)
Lemma loginShape_excludes_other_queries :
  ¬ loginShape "xmpp:alice@example.org?join" ∧
  ¬ loginShape "xmpp:alice@example.org?message;body=hi" ∧
  ¬ loginShape "xmpp:?login" ∧
  loginShape "xmpp:alice@example.org" ∧
  loginShape "xmpp:alice@example.org?login;password=secret".
Proof.
  repeat split.
  - intros Hshape.
    now apply (logInByUri_of_shape _ StateDisconnected) in Hshape.
  - intros Hshape.
    now apply (logInByUri_of_shape _ StateDisconnected) in Hshape.
  - intros Hshape.
    now apply (logInByUri_of_shape _ StateDisconnected) in Hshape.
  - now apply (logInByUri_shape _ StateDisconnected).
  - now apply (logInByUri_shape _ StateDisconnected).
Qed.

End LoginByUriProperties.

(** ** Properties of the camera image capture *)

Section CameraImageCaptureProperties.
Import CameraImageCapture.
Context `{QtMultimedia}.

Lemma deliverAll_repeat (queue : list Posted) (o : Object) :
  deliverAll queue o =
    repeat (availabilityChanged (availability (base o))) (length queue).
Proof.
  induction queue as [|p queue IH]; [reflexivity|].
  destruct p. cbn. now rewrite IH.
Qed.

Lemma last_cons_default {A} (d x : A) (l : list A) :
  default d (last (x :: l)) = default x (last l).
Proof.
  revert d x. induction l as [|y l IH]; intros d x.
  - reflexivity.
  - change (last (x :: y :: l)) with (last (y :: l)).
    now rewrite (IH d y), (IH x y).
Qed.

(** X12: after a run of [imageSaved] signals, [actualLocation()] is the
    local-file URL of the path saved last (the location from before when the
    run is empty, which is the empty URL for a new object); the ids play no
    part.  One [actualLocationChanged] is emitted per saved image, in order
    and with the URL of that image, whether or not the location differs from
    the previous one.  The base class part is not touched. *)
Theorem actualLocation_is_last_saved (saved : list (Z * QString)) (o : Object) :
  let run := saveAll saved o in
  actualLocation run.1 =
    default (m_actualLocation o) (last ((fun e => QUrl_fromLocalFile e.2) <$> saved)) ∧
  run.2 = (fun e => actualLocationChanged (QUrl_fromLocalFile e.2)) <$> saved ∧
  base run.1 = base o ∧
  ∀ b, actualLocation (construct b) = QUrl_empty.
Proof.
  cbn zeta. split; [|split; [|split]].
  - revert o. induction saved as [|[id filePath] saved IH]; intros o.
    + reflexivity.
    + cbn [saveAll fst]. rewrite IH. cbn [fmap list_fmap snd].
      now rewrite last_cons_default.
  - revert o. induction saved as [|[id filePath] saved IH]; intros o.
    + reflexivity.
    + cbn [saveAll snd]. rewrite IH. reflexivity.
  - revert o. induction saved as [|[id filePath] saved IH]; intros o.
    + reflexivity.
    + cbn [saveAll fst]. now rewrite IH.
  - reflexivity.
Qed.

(** X13: [setMediaObject] returns what the base class returns and leaves
    [m_actualLocation] alone.  It emits nothing itself; it posts one call to
    the event loop exactly when the availability after the base call differs
    from the one before.  When the posted calls are delivered, each emits
    [availabilityChanged] with the availability the object has at delivery,
    so after several calls in a row all notifications carry the same, latest
    status. *)
Theorem setMediaObject_notifies_later
    (mediaObjects : list QMediaObject) (o : Object) (queue : list Posted) :
  let run := setAll mediaObjects o queue in
  let onBase := baseRun mediaObjects (base o) in
  run.1.1 = onBase.1.1 ∧
  base run.1.2 = onBase.1.2 ∧
  m_actualLocation run.1.2 = m_actualLocation o ∧
  run.2 = queue ++ repeat EmitAvailability onBase.2 ∧
  ∀ later,
    deliverAll run.2 later =
      repeat (availabilityChanged (availability (base later)))
        (length queue + onBase.2).
Proof.
  cbn zeta.
  assert (Hrun :
    (setAll mediaObjects o queue).1.1 = (baseRun mediaObjects (base o)).1.1 ∧
    base (setAll mediaObjects o queue).1.2 = (baseRun mediaObjects (base o)).1.2 ∧
    m_actualLocation (setAll mediaObjects o queue).1.2 = m_actualLocation o ∧
    (setAll mediaObjects o queue).2 =
      queue ++ repeat EmitAvailability (baseRun mediaObjects (base o)).2).
  { revert o queue.
    induction mediaObjects as [|mediaObject rest IH]; intros o queue.
    - cbn. now rewrite app_nil_r.
    - cbn [setAll baseRun fst snd].
      destruct (IH (setMediaObject mediaObject o queue).1.2
                   (setMediaObject mediaObject o queue).2)
        as (Hresults & Hbase & Hlocation & Hqueue).
      rewrite Hresults, Hbase, Hlocation, Hqueue.
      unfold setMediaObject. cbn [base].
      destruct (bool_decide _); cbn [fst snd base m_actualLocation];
        repeat split; try reflexivity.
      now rewrite <- app_assoc. }
  destruct Hrun as (Hresults & Hbase & Hlocation & Hqueue).
  repeat split; try assumption.
  intros later. rewrite deliverAll_repeat, Hqueue.
  now rewrite length_app, repeat_length.
Qed.

End CameraImageCaptureProperties.

(** ** The properties at work on the sample platform *)

Section OnTheSamplePlatform.
Import Sample.

(** A start of the application with a stored account: the credentials are
    loaded, nothing is reported as new, no new credentials are asked for. *)
Example loadCredentials_stored_account :
  let w := mkWorld (constructed false false) stored 0%nat in
  result loadCredentials w = true ∧
  self (after loadCredentials w) =
    mkAccountManager "alice@example.org" "Kaidan" "Kaidan.1234" "secret" "" 5223
      false false ∧
  signals (trace loadCredentials w) =
    [jidChanged; passwordChanged; hostChanged; portChanged] ∧
  result port (after loadCredentials w) = 5223.
Proof. vm_compute. repeat split. Qed.

(** A first start: the settings file is empty. *)
Example loadCredentials_first_start :
  result loadCredentials fresh = false ∧
  m_jidResourcePrefix (self (after loadCredentials fresh)) = "Kaidan" ∧
  result port (after loadCredentials fresh) = 5222 ∧
  signals (trace loadCredentials fresh) =
    [jidChanged; passwordChanged; hostChanged; portChanged; newCredentialsNeeded].
Proof. vm_compute. repeat split. Qed.

(** Storing and deleting: what [storeCredentials] wrote is gone after
    [deleteCredentials]. *)
Example store_then_delete :
  let w := after (performAll
                    [call_setJid "alice@example.org"; call_setPassword "secret";
                     call_setPort 5223; call_storeCredentials]) fresh in
  m_settings w !! "auth/jid" = Some (QVString "alice@example.org") ∧
  m_settings w !! "auth/port" = Some (QVInt 5223) ∧
  m_settings w !! "auth/host" = None ∧
  m_settings (after deleteCredentials w) = ∅.
Proof. vm_compute. repeat split. Qed.

(** [deleteSettings] takes the muted contacts with it, which are stored below
    the key it removes, and leaves the account alone. *)
Example deleteSettings_muted_contacts :
  let account : gmap string QVariant :=
    <["auth/jid" := QVString "alice@example.org"]>
      (<["auth/password" := QVString "secret"]> ∅) in
  let w :=
    mkWorld (constructed false false)
      (<["muted/bob@example.org" := QVBool true]>
         (<["muted/carol@example.org" := QVBool true]>
            (<["auth/online" := QVBool true]> account)))
      0%nat in
  m_settings (after deleteSettings w) = account.
Proof. vm_compute. reflexivity. Qed.

(** Two reads of the resource without a prefix, and two with one. *)
Example jidResource_reads :
  result jidResource fresh = ".1234" ∧
  result jidResource (after jidResource fresh) = ".5678" ∧
  let w := after (setJidResourcePrefix "Kaidan") fresh in
  result jidResource w = "Kaidan.1234" ∧
  result jidResource (after jidResource w) = "Kaidan.1234".
Proof. vm_compute. repeat split. Qed.

(** Against C3 as the specification words it: on an object whose stored
    credentials were just loaded from an empty settings file,
    [setJidResourcePrefix] neither sets the flag nor emits a signal. *)
Lemma setJidResourcePrefix_marks_nothing :
  ¬ marksNewAndNotifies (setJidResourcePrefix "Kaidan") (after loadCredentials fresh).
Proof.
  intros [Hflag _]. vm_compute in Hflag. discriminate Hflag.
Defined.

(** Against C8 as the specification words it: [setJidResourcePrefix] writes
    two members without ever acquiring the mutex. *)
Lemma setJidResourcePrefix_takes_no_lock :
  ¬ guardedByMutex (setJidResourcePrefix "Kaidan") fresh.
Proof.
  intros (_ & Hlocked & _). vm_compute in Hlocked. discriminate Hlocked.
Defined.

(** The flag survives reads, a store and a second marking after [setJid]. *)
Lemma identity_write_marks_new_witness :
  fieldSignal (call_setJid "alice@example.org") = Some jidChanged ∧
  Forall (fun c => clearsFlag c = false)
    [call_jidResource; call_setHasNewCredentials true; call_storeCredentials] ∧
  m_hasNewCredentials
    (self
       (after
          (performAll
             [call_setJid "alice@example.org"; call_jidResource;
              call_setHasNewCredentials true; call_storeCredentials])
          fresh)) = true.
Proof.
  assert (Hsig : fieldSignal (call_setJid "alice@example.org") = Some jidChanged)
    by reflexivity.
  assert (Hcs : Forall (fun c => clearsFlag c = false)
            [call_jidResource; call_setHasNewCredentials true; call_storeCredentials])
    by (repeat constructor).
  split; [exact Hsig|]. split; [exact Hcs|].
  exact (proj1 (proj2 (proj2 (identity_write_marks_new _ _ _ fresh Hsig Hcs)))).
Defined.

(** The resource cached for the prefix "Kaidan" survives a change of the
    address, a read and a store. *)
Lemma jidResource_cached_witness :
  "Kaidan" ≠ "" ∧
  Forall (fun c => changesPrefix c = false)
    [call_setJid "alice@example.org"; call_jidResource; call_storeCredentials] ∧
  result jidResource
    (after
       (performAll
          [call_setJid "alice@example.org"; call_jidResource; call_storeCredentials])
       (after (setJidResourcePrefix "Kaidan") fresh)) = "Kaidan.1234".
Proof.
  assert (HP : "Kaidan" ≠ "") by discriminate.
  assert (Hcs : Forall (fun c => changesPrefix c = false)
            [call_setJid "alice@example.org"; call_jidResource; call_storeCredentials])
    by (repeat constructor).
  split; [exact HP|]. split; [exact Hcs|].
  exact (proj2 (proj2 (proj1 (jidResource_cached "Kaidan" _ fresh HP Hcs)))).
Defined.

(** A custom port is read back as it was set. *)
Lemma port_default_at_read_witness :
  0 <= 5223 <= 65535 ∧ result port (after (setPort 5223) fresh) = 5223.
Proof.
  assert (Hp : 0 <= 5223 <= 65535) by (split; discriminate).
  split; [exact Hp|].
  exact (proj2 (proj1 (proj2 (proj2 (proj2 (port_default_at_read 5223 fresh Hp)))))).
Defined.

(** The address set first is still there after the password was set, the
    credentials were stored and the flag was cleared. *)
Lemma member_kept_until_assigned_witness :
  Forall (fun c => assigns M_jid c = false)
    [call_setPassword "secret"; call_storeCredentials; call_setHasNewCredentials false] ∧
  result jid
    (after
       (performAll
          [call_setPassword "secret"; call_storeCredentials;
           call_setHasNewCredentials false])
       (after (setJid "alice@example.org") fresh)) = "alice@example.org".
Proof.
  assert (Hcs : Forall (fun c => assigns M_jid c = false)
            [call_setPassword "secret"; call_storeCredentials;
             call_setHasNewCredentials false])
    by (repeat constructor).
  split; [exact Hcs|].
  exact (proj2 (member_kept_until_assigned M_jid _
                  (after (setJid "alice@example.org") fresh) Hcs)).
Defined.

(** The port -2 is reported as 5222 and persisted as -2. *)
Lemma port_never_negative_witness :
  -2 < 0 ∧ -2 ≠ PORT_UNSET ∧
  result port (after (setPort (-2)) fresh) = PORT_DEFAULT ∧
  m_settings (after storeCustomConnectionSettings (after (setPort (-2)) fresh))
    !! "auth/port" = Some (QVInt (-2)).
Proof.
  assert (Hneg : -2 < 0) by reflexivity.
  assert (Hsentinel : -2 ≠ PORT_UNSET) by discriminate.
  split; [exact Hneg|]. split; [exact Hsentinel|].
  pose proof (port_never_negative (-2) fresh Hneg Hsentinel) as (_ & Hport & Hstored & _).
  split; [exact Hport|exact Hstored].
Defined.

(** Entered credentials on a new object over a store that holds others. *)
Lemma entered_credentials_survive_load_witness :
  "bob@example.org" ≠ "" ∧ "hunter2" ≠ "" ∧
  result jid
    (after loadCredentials
       (after (setPassword "hunter2")
          (after (setJid "bob@example.org")
             (mkWorld (constructed false false) stored 0%nat)))) = "bob@example.org".
Proof.
  assert (Hj : "bob@example.org" ≠ "") by discriminate.
  assert (Hp : "hunter2" ≠ "") by discriminate.
  split; [exact Hj|]. split; [exact Hp|].
  pose proof (entered_credentials_survive_load "bob@example.org" "hunter2"
                (mkWorld (constructed false false) stored 0%nat) Hj Hp)
    as (_ & _ & _ & _ & Hjid & _).
  exact Hjid.
Defined.

(** An account with a custom port, stored and loaded by a new object. *)
Lemma storeCredentials_then_load_witness :
  let w :=
    after (setPort 5223)
      (after (setPassword "secret") (after (setJid "alice@example.org") fresh)) in
  let reloaded :=
    after loadCredentials
      (mkWorld (constructed false false) (m_settings (after storeCredentials w)) 7%nat) in
  NoDup ["auth/jid"; "auth/password"; "auth/host"; "auth/port"] ∧
  m_jid (self w) ≠ "" ∧
  m_password (self w) ≠ "" ∧
  m_jid (self reloaded) = "alice@example.org" ∧
  m_password (self reloaded) = "secret" ∧
  m_port (self reloaded) = 5223.
Proof.
  cbn zeta.
  set (w := after (setPort 5223)
              (after (setPassword "secret") (after (setJid "alice@example.org") fresh))).
  assert (Hkeys : NoDup ["auth/jid"; "auth/password"; "auth/host"; "auth/port"])
    by compute_done.
  assert (Hjid : m_jid (self w) ≠ "") by discriminate.
  assert (Hpassword : m_password (self w) ≠ "") by discriminate.
  assert (Hcodec :
    fromUtf8 (fromBase64 (toUtf8 (fromUtf8 (toBase64 (toUtf8 (m_password (self w)))))))
      = m_password (self w)) by reflexivity.
  split; [exact Hkeys|]. split; [exact Hjid|]. split; [exact Hpassword|].
  pose proof (storeCredentials_then_load w false false 7%nat Hkeys Hjid Hpassword Hcodec)
    as (_ & _ & _ & Hj & Hp & _ & Hport & _).
  split; [exact Hj|]. split; [exact Hp|exact Hport].
Defined.

(** A custom host and port outlive their reset in the settings file. *)
Lemma reset_is_not_persisted_witness :
  "xmpp.example.org" ≠ "" ∧ 5223 ≠ PORT_UNSET ∧ "auth/host" ≠ "auth/port" ∧
  (let w1 :=
     after storeCustomConnectionSettings
       (after (setPort 5223) (after (setHost "xmpp.example.org") fresh)) in
   let w3 := after storeCustomConnectionSettings (after resetPort (after resetHost w1)) in
   m_settings w3 !! "auth/host" = Some (QVString "xmpp.example.org") ∧
   m_settings w3 !! "auth/port" = Some (QVInt 5223)).
Proof.
  assert (Hh : "xmpp.example.org" ≠ "") by discriminate.
  assert (Hp : 5223 ≠ PORT_UNSET) by discriminate.
  assert (Hkeys : "auth/host" ≠ "auth/port") by discriminate.
  split; [exact Hh|]. split; [exact Hp|]. split; [exact Hkeys|].
  pose proof (reset_is_not_persisted "xmpp.example.org" 5223 fresh false false 0%nat
                Hh Hp Hkeys) as (_ & _ & _ & _ & Hhost & Hport & _).
  split; [exact Hhost|exact Hport].
Defined.

(** Whatever is called, the switch of a new object over an empty settings
    file stays off. *)
Lemma switch_never_turned_on_witness :
  ("auth/useCustomConnectionSettings" ∉
     ["auth/jid"; "auth/password"; "auth/host"; "auth/port"]) ∧
  (result customConnectionSettingsEnabled
     (after
        (performAll
           [call_setCustomConnectionSettingsEnabled true; call_setHost "xmpp.example.org";
            call_storeCredentials])
        fresh) = result customConnectionSettingsEnabled fresh ∨
   result customConnectionSettingsEnabled
     (after
        (performAll
           [call_setCustomConnectionSettingsEnabled true; call_setHost "xmpp.example.org";
            call_storeCredentials])
        fresh) = false).
Proof.
  assert (Hkey : "auth/useCustomConnectionSettings" ∉
            ["auth/jid"; "auth/password"; "auth/host"; "auth/port"])
    by compute_done.
  split; [exact Hkey|].
  exact (proj1 (switch_never_turned_on
                  [call_setCustomConnectionSettingsEnabled true;
                   call_setHost "xmpp.example.org"; call_storeCredentials]
                  fresh Hkey)).
Defined.

(** The availability goes from available to busy and back before the event
    loop runs: two notifications are delivered, both saying available. *)
Example setMediaObject_there_and_back :
  let o := CameraImageCapture.construct CameraImageCapture.Available in
  let run :=
    CameraImageCapture.setAll
      [CameraImageCapture.Busy; CameraImageCapture.Available] o [] in
  run.1.1 = [true; true] ∧
  CameraImageCapture.deliverAll run.2 run.1.2 =
    [ CameraImageCapture.availabilityChanged CameraImageCapture.Available;
      CameraImageCapture.availabilityChanged CameraImageCapture.Available ].
Proof. vm_compute. split; reflexivity. Qed.

End OnTheSamplePlatform.
